(** * todogotchi: ownership cascade and pet leveling

    A shallow embedding of the server-side handlers of the application:

    - [updatePet] (pet controller), whose body contains the leveling
      computation [applyPoints];
    - [createTask], [updateTask], [deleteTask] (task controller) and the
      pre-delete hook of the Task model;
    - [createFolder] and [deleteFolder] (folder controller).

    Modelling conventions.

    - A JavaScript number is a real number: IEEE-754 rounding, NaN and the
      infinities are not modelled.  [Math.pow] is [Rpower], which agrees with
      it on positive bases; every statement about the experience curve is
      made for levels [>= 1].  The statements about the leveling computation
      are chosen so that they read the same in binary64: a sum in a
      statement is the sum the code computes, the conclusions compare and
      order the numbers the code computes, a statement that needs exact
      arithmetic is made for integers of magnitude up to
      2^53 = 9007199254740992, and a loop is said to end only where every
      turn changes its variable.
    - A JSON value is a [value]; a JavaScript object used as a record is a
      finite map from property names to values, an absent key standing for
      [undefined].
    - A Mongoose collection is a finite map from ids to documents.  Of the
      casting of Mongoose, the values that are kept as they are and the
      strings that throw a CastError are modelled; a handler whose run
      depends on another cast answers [Unmodelled].  Validation and schema
      strictness are modelled where stated.
    - A [while] loop is a [Fixpoint] on a fuel argument that returns [None]
      when the fuel runs out; termination is proved separately. *)

From Stdlib Require Import Reals Lra Lia.
From stdpp Require Import gmap strings list.

(** ** JSON values *)

Inductive value : Type :=
  | VNull
  | VBool (b : bool)
  | VNum (x : R)
  | VStr (s : string).

(** A plain object: property name to value. *)
Abbreviation object := (gmap string value).

(** ** The leveling computation of [updatePet] *)

Section Leveling.
Local Open Scope R_scope.

Definition BASE_EXP : R := 100.
Definition EXPONENT : R := 15 / 10.

Definition calculateRequiredExp (level : R) : R :=
  BASE_EXP * Rpower level EXPONENT.

(** The three variables the two loops work on. *)
Record loop_state : Type := LoopState {
  totalExp : R;
  newLevel : R;
  maxExp : R
}.

(** [while (totalExp >= maxExp) { ... }] *)
Fixpoint levelUp (fuel : nat) (s : loop_state) {struct fuel} : option loop_state :=
  if Rle_dec (maxExp s) (totalExp s) then
    match fuel with
    | O => None
    | S fuel' =>
        levelUp fuel'
          {| totalExp := totalExp s - maxExp s;
             newLevel := newLevel s + 1;
             maxExp := calculateRequiredExp (newLevel s + 1) |}
    end
  else Some s.

(** [while (totalExp < 0 && newLevel > 1) { ... }] *)
Fixpoint levelDown (fuel : nat) (s : loop_state) {struct fuel} : option loop_state :=
  if Rlt_dec (totalExp s) 0 then
    if Rlt_dec 1 (newLevel s) then
      match fuel with
      | O => None
      | S fuel' =>
          levelDown fuel'
            {| totalExp := totalExp s + calculateRequiredExp (newLevel s - 1);
               newLevel := newLevel s - 1;
               maxExp := calculateRequiredExp (newLevel s - 1) |}
      end
    else Some s
  else Some s.

(** The body of [if (updates.points !== undefined) { ... }]: from the pet's
    level and points and the payload's points to the new (level, points). *)
Definition applyPoints (fuel : nat) (level points delta : R) : option (R * R) :=
  s1 ← levelUp fuel
         {| totalExp := points + delta;
            newLevel := level;
            maxExp := calculateRequiredExp level |};
  s2 ← levelDown fuel s1;
  Some (newLevel s2, totalExp s2).

(** The experience a pet gathers on the way from (level 1, 0 points) to
    level [k + 1] with 0 points: the sum of [calculateRequiredExp] over the
    levels [1 .. k].  A measure used to state what the loops preserve. *)
Fixpoint expToReach (k : nat) : R :=
  match k with
  | O => 0
  | S k' => expToReach k' + calculateRequiredExp (INR (S k'))
  end.

End Leveling.

(** ** JavaScript primitives used by the handlers *)

#[global] Instance R_eq_dec : EqDecision R := Req_dec_T.

#[global] Instance value_eq_dec : EqDecision value.
Proof. solve_decision. Defined.

(** Truthiness of a possibly undefined value, as tested by [!x] and [x && y]. *)
Definition truthy (v : option value) : bool :=
  match v with
  | None => false
  | Some VNull => false
  | Some (VBool b) => b
  | Some (VNum x) => if decide (x = 0%R) then false else true
  | Some (VStr s) => if decide (s = EmptyString) then false else true
  end.

(** [a !== b] on possibly undefined values. *)
Definition strict_ne (a b : option value) : bool :=
  if decide (a = b) then false else true.

(** [!id] for a route parameter, which is a string. *)
Definition missing (id : string) : bool :=
  if decide (id = EmptyString) then true else false.

(** [arr.push(x)] on a child-id array: the attach step of the create
    handlers ([user.folders.push(folder._id)], [note.tasks.push(task._id)]). *)
Definition attachChild (children : list string) (childId : string) : list string :=
  children ++ [childId].

(** [{ $pull: { arr: x } }]: every occurrence of [x] is removed. *)
Definition pull (children : list string) (childId : string) : list string :=
  filter (λ c, c ≠ childId) children.

(** ** Documents and collections *)

(** The User, Folder and Note models are not part of the sources at hand;
    the records keep the fields the controllers read and write. *)
Record user : Type := User {
  user_email : string;
  user_password : string;
  user_folders : list string;
  user_pets : list string
}.

Record folder : Type := Folder {
  folder_user : string;
  folder_name : value;
  folder_notes : list string
}.

Record note : Type := Note {
  note_folder : string;
  note_tasks : list string
}.

(** Tasks and pets are updated from arbitrary request bodies, so they are
    kept as objects.  Paths of the Task schema: user, note, name,
    creationDate, dueDate, status, category, completedDate, points. *)
Record db : Type := Db {
  users : gmap string user;
  folders : gmap string folder;
  notes : gmap string note;
  tasks : gmap string object;
  pets : gmap string object
}.

Definition set_users (d : db) (m : gmap string user) : db :=
  {| users := m; folders := folders d; notes := notes d;
     tasks := tasks d; pets := pets d |}.
Definition set_folders (d : db) (m : gmap string folder) : db :=
  {| users := users d; folders := m; notes := notes d;
     tasks := tasks d; pets := pets d |}.
Definition set_notes (d : db) (m : gmap string note) : db :=
  {| users := users d; folders := folders d; notes := m;
     tasks := tasks d; pets := pets d |}.
Definition set_tasks (d : db) (m : gmap string object) : db :=
  {| users := users d; folders := folders d; notes := notes d;
     tasks := m; pets := pets d |}.
Definition set_pets (d : db) (m : gmap string object) : db :=
  {| users := users d; folders := folders d; notes := notes d;
     tasks := tasks d; pets := m |}.

(** What a handler sends back. *)
Inductive response (A : Type) : Type :=
  | Json (status : nat) (body : A)          (* res.status(s).json(doc) *)
  | Message (status : nat) (message : string) (* res.status(s).json({ message }) *)
  | Empty (status : nat)                    (* res.status(s).json() *)
  | Failure (status : nat).                 (* res.status(s).json({ error }) *)
Arguments Json {A} status body.
Arguments Message {A} status message.
Arguments Empty {A} status.
Arguments Failure {A} status.

(** ** Pet controller: [updatePet] *)

(** A handler either finishes, or runs out of fuel in a loop, or leaves the
    fragment that is modelled (arithmetic on operands that are not numbers,
    a cast of Mongoose other than the ones of [cast], a key that is no path
    of the schema). *)
Inductive outcome (A : Type) : Type :=
  | Finished (a : A)
  | OutOfFuel
  | Unmodelled.
Arguments Finished {A} a.
Arguments OutOfFuel {A}.
Arguments Unmodelled {A}.

(** [if (updates.points !== undefined) { ...; pet.points = totalExp;
    pet.level = newLevel; }] *)
Definition levelPet (fuel : nat) (pet updates : object) : outcome object :=
  match updates !! "points" with
  | None => Finished pet
  | Some delta =>
      match pet !! "points", pet !! "level", delta with
      | Some (VNum p), Some (VNum l), VNum d =>
          match applyPoints fuel l p d with
          | Some (l', p') =>
              Finished (<["level" := VNum l']> (<["points" := VNum p']> pet))
          | None => OutOfFuel
          end
      | _, _, _ => Unmodelled
      end
  end.

(** *** Schemas and casting *)

(** The kinds of path the schemas declare: String, Number, Date and
    ObjectId. *)
Inductive kind : Type := KString | KNumber | KDate | KId.

(** A schema: its paths with their kinds. *)
Fixpoint path_kind (schema : list (string * kind)) (path : string) : option kind :=
  match schema with
  | [] => None
  | (p, k) :: rest => if decide (p = path) then Some k else path_kind rest path
  end.

(** Whether a JSON value is kept as it is under a path of the kind: a string
    under a String path, a number under a Number path, and under an
    ObjectId path a string, which is how this model writes an id (the
    collections are keyed by strings).  Every other value has to be cast;
    no JSON value is a Date. *)
Definition has_kind (v : value) (k : kind) : bool :=
  match k, v with
  | KString, VStr _ => true
  | KNumber, VNum _ => true
  | KId, VStr _ => true
  | _, _ => false
  end.

(** A string, not empty, of the letters a to z.  It holds no digit, so
    [Number(s)] is NaN and [new Date(s)] is an invalid date. *)
Definition lowercase_word (s : string) : bool :=
  match s with
  | EmptyString => false
  | String _ _ =>
      forallb (λ c, (97 <=? Ascii.nat_of_ascii c)%nat && (Ascii.nat_of_ascii c <=? 122)%nat)
              (String.list_ascii_of_string s)
  end.

(** The cast of a value to a kind.  A value of the kind is kept; a lowercase
    word under a Number or Date path is a CastError; the other casts
    (numeric strings, booleans, null, dates) are not modelled. *)
Inductive casting : Type :=
  | Cast (v : value)
  | CastError
  | CastUnmodelled.

Definition cast (k : kind) (v : value) : casting :=
  if has_kind v k then Cast v
  else match k, v with
       | KNumber, VStr s => if lowercase_word s then CastError else CastUnmodelled
       | KDate, VStr s => if lowercase_word s then CastError else CastUnmodelled
       | _, _ => CastUnmodelled
       end.

(** Whether some entry of an object satisfies a test. *)
Definition map_any (test : string → value → bool) (m : object) : bool :=
  map_fold (λ key v acc, acc || test key v) false m.

(** An entry of an update whose cast throws, and one that is not modelled:
    its cast is not, or its key is no path of the schema (a strict schema
    leaves unknown names out of an update, but operators, nested paths and
    the names Mongoose adds to a schema are not told apart from them
    here). *)
Definition entry_throws (schema : list (string * kind)) (key : string) (v : value)
  : bool :=
  match path_kind schema key with
  | Some k => match cast k v with CastError => true | _ => false end
  | None => false
  end.

Definition entry_unmodelled (schema : list (string * kind)) (key : string)
    (v : value) : bool :=
  match path_kind schema key with
  | Some k => match cast k v with CastUnmodelled => true | _ => false end
  | None => true
  end.

(** A payload entry that sets a String path to a string or a Number path to
    a number: no cast is involved.  Used to state which payloads a handler
    is proved to accept. *)
Definition settable (schema : list (string * kind)) (key : string) (v : value)
  : bool :=
  match path_kind schema key, v with
  | Some KString, VStr _ => true
  | Some KNumber, VNum _ => true
  | _, _ => false
  end.

(** *** The pet document *)

(** Modelled from the spec: the paths of the Pet schema, which is not part
    of the sources at hand.  A pet is owned by a user and has a level and
    points, both numbers (section 3); [createPet] hands the constructor a
    name and a type. *)
Definition Pet_schema : list (string * kind) :=
  [("user", KId); ("name", KString); ("type", KString);
   ("level", KNumber); ("points", KNumber)].

(** A document in memory: the values of the schema's paths, which [save]
    writes and [res.json] serialises, and the other properties that were
    set on the object. *)
Record document : Type := Document {
  fields : object;
  props : object
}.

(** [doc[key] = v].  Under a path of the schema the value is set when it is
    of the path's kind ([None]: the cast is not modelled); under any other
    key it becomes a property of the object, in the place of a member of
    that name. *)
Definition assign (schema : list (string * kind)) (doc : document)
    (key : string) (v : value) : option document :=
  match path_kind schema key with
  | Some k =>
      if has_kind v k
      then Some {| fields := <[key := v]> (fields doc); props := props doc |}
      else None
  | None => Some {| fields := fields doc; props := <[key := v]> (props doc) |}
  end.

(** [for (const key in updates) { if (key !== "points") pet[key] = updates[key]; }] *)
Definition applyOtherUpdates (pet : document) (updates : object) : option document :=
  map_fold (λ key v acc,
              if decide (key ≠ "points")
              then acc ≫= (λ doc, assign Pet_schema doc key v)
              else acc)
           (Some pet) updates.

(** [pet.save()].  When the loop has put a property [save] on the object,
    that property is not a function and the call throws.  With no property
    set, the paths are written.  What another property does to the
    document (it may stand in the place of a member that [save] or
    [res.json] uses) is not modelled. *)
Inductive saving : Type :=
  | Saved (doc : object)
  | SaveThrows
  | SaveUnmodelled.

Definition Document_save (doc : document) : saving :=
  match props doc !! "save" with
  | Some _ => SaveThrows
  | None => if decide (size (props doc) = 0%nat) then Saved (fields doc)
            else SaveUnmodelled
  end.

(** [updatePet].  An error thrown in the [try] block is answered with 500. *)
Definition updatePet (fuel : nat) (d : db) (petId : string) (updates : object)
  : outcome (response object * db) :=
  if missing petId then Finished (Message 400 "Pet ID required", d)
  else match pets d !! petId with
  | None => Finished (Message 404 "Pet not found", d)
  | Some pet =>
      match levelPet fuel pet updates with
      | Finished pet1 =>
          match applyOtherUpdates {| fields := pet1; props := ∅ |} updates with
          | Some doc =>
              match Document_save doc with
              | Saved updatedPet =>
                  Finished (Json 200 updatedPet,
                            set_pets d (<[petId := updatedPet]> (pets d)))
              | SaveThrows => Finished (Failure 500, d)
              | SaveUnmodelled => Unmodelled
              end
          | None => Unmodelled
          end
      | OutOfFuel => OutOfFuel
      | Unmodelled => Unmodelled
      end
  end.

(** ** Task model *)

(** Paths declared [required: true]. *)
Definition Task_required : list string := ["user"; "note"; "name"; "category"].

(** [task.save()] of a new document: the required-path validators run and
    the document is inserted; [None] is a ValidationError.  The enum and
    cast checks are not modelled. *)
Definition Task_save (coll : gmap string object) (id : string) (doc : object)
  : option (gmap string object) :=
  if forallb (λ path, bool_decide (is_Some (doc !! path))) Task_required
  then Some (<[id := doc]> coll)
  else None.

(** The paths of [TaskSchema] with their kinds. *)
Definition Task_schema : list (string * kind) :=
  [("user", KId); ("note", KId); ("name", KString); ("creationDate", KDate);
   ("dueDate", KDate); ("status", KString); ("category", KString);
   ("completedDate", KDate); ("points", KNumber)].

(** [Task.findByIdAndUpdate(id, update, { new: true })].  The update is cast
    to the schema first: a value that cannot be cast throws a CastError and
    nothing is written.  Update validators are off by default, so the enums
    and [required] are not checked.  Then the paths of the update are set
    and the updated document is returned; [null] when [id] does not
    resolve. *)
Inductive updating : Type :=
  | Updated (doc : option object) (coll : gmap string object)
  | UpdateThrows
  | UpdateUnmodelled.

Definition Task_findByIdAndUpdate (coll : gmap string object) (id : string)
    (update : object) : updating :=
  if map_any (entry_unmodelled Task_schema) update then UpdateUnmodelled
  else if map_any (entry_throws Task_schema) update then UpdateThrows
  else match coll !! id with
  | None => Updated None coll
  | Some doc =>
      let doc' := update ∪ doc in
      Updated (Some doc') (<[id := doc']> coll)
  end.

(** [this.note] of a task document. *)
Definition task_note (task : object) : option string :=
  match task !! "note" with
  | Some (VStr n) => Some n
  | _ => None
  end.

(** What a document delete (hook, then removal) or a cascade ends in: the
    store after it, or the error that stopped it and the store reached. *)
Inductive error : Type := NotFound | ParentNotFound.

Inductive cascade : Type :=
  | Deleted (d : db)
  | Aborted (e : error) (d : db).

(** [TaskSchema.pre("deleteOne", ...)]:
    [Note.findByIdAndUpdate(this.note, { $pull: { tasks: this._id } })],
    then [note.tasks] is read for the log, which throws when the note did
    not resolve; the error goes to [next].  [None] is that error. *)
Definition Task_pre_deleteOne (d : db) (id : string) (this : object) : option db :=
  n ← task_note this;
  nt ← notes d !! n;
  Some (set_notes d
          (<[n := {| note_folder := note_folder nt;
                     note_tasks := pull (note_tasks nt) id |}]> (notes d))).

(** [task.deleteOne()]: the hook, and the removal when the hook went
    through. *)
Definition Task_deleteOne (d : db) (id : string) (this : object) : cascade :=
  match Task_pre_deleteOne d id this with
  | Some d' => Deleted (set_tasks d' (delete id (tasks d')))
  | None => Aborted ParentNotFound d
  end.

(** ** Task controller *)

(** [let pointsMapping = { easy: 250, medium: 500, hard: 1000 }] *)
Definition pointsMapping : object :=
  {[ "easy" := VNum 250; "medium" := VNum 500; "hard" := VNum 1000 ]}.

(** [pointsMapping[category]] as far as the table's own keys go.  A key
    that is not a string is converted to one that the table does not hold;
    for the keys inherited from [Object.prototype] see [inherited]. *)
Definition pointsMapping_at (category : option value) : option value :=
  match category with
  | Some (VStr c) => pointsMapping !! c
  | _ => None
  end.

(** [createTask]: [name] is [req.body.name]; [newId] is the id that
    [new Task] generates and [now] is [Date.now()].  The new document gets
    [points: pointsMapping["easy"]] and no [user]. *)
Definition createTask (d : db) (noteId : string) (name : option value)
    (newId : string) (now : R) : response object * db :=
  match name with
  | None => (Message 400 "Required fields missing", d)
  | Some nm =>
      if negb (truthy name) then (Message 400 "Required fields missing", d)
      else match notes d !! noteId with
      | None => (Message 404 "Note not found", d)
      | Some nt =>
          let task : object :=
            {[ "note" := VStr noteId; "name" := nm; "creationDate" := VNum now;
               "status" := VStr "pending"; "category" := VStr "easy" ]} in
          let task : object :=
            match pointsMapping_at (Some (VStr "easy")) with
            | Some pts => <["points" := pts]> task
            | None => task
            end in
          match Task_save (tasks d) newId task with
          | None => (Failure 500, d)
          | Some coll =>
              let nt' := {| note_folder := note_folder nt;
                            note_tasks := attachChild (note_tasks nt) newId |} in
              (Json 201 task,
               set_notes (set_tasks d coll) (<[noteId := nt']> (notes d)))
          end
      end
  end.

(** The methods every object inherits from [Object.prototype]:
    [pointsMapping[c]] is a function for these names. *)
Definition Object_prototype_methods : list string :=
  ["constructor"; "hasOwnProperty"; "isPrototypeOf"; "propertyIsEnumerable";
   "toLocaleString"; "toString"; "valueOf"; "__defineGetter__";
   "__defineSetter__"; "__lookupGetter__"; "__lookupSetter__"].

(** What [pointsMapping[category]] is when it is not a key of the table. *)
Inductive inherited_value : Type := IsUndefined | IsFunction | IsPrototype.

Definition inherited (category : option value) : inherited_value :=
  match category with
  | Some (VStr c) =>
      if decide (c ∈ Object_prototype_methods) then IsFunction
      else if decide (c = "__proto__") then IsPrototype
      else IsUndefined
  | _ => IsUndefined
  end.

(** [updateTask].  When the task does not resolve the handler sends 404 and
    goes on (there is no [return]); reading [oldTask.category] then throws,
    and the response already sent stays the 404.  Assigning [undefined] to
    [taskData.points] is the removal of the key: Mongoose leaves undefined
    entries out of an update.  A function assigned to [taskData.points]
    cannot be cast to a number, so the update throws (said of a payload
    whose other entries are modelled); an error thrown in the [try] block
    is answered with 500. *)
Definition updateTask (d : db) (taskId : string) (taskData : object)
  : outcome (response object * db) :=
  if missing taskId then Finished (Message 400 "Task ID required", d)
  else match tasks d !! taskId with
  | None => Finished (Message 404 "Task not found", d)
  | Some oldTask =>
      let changed :=
        truthy (taskData !! "category")
        && strict_ne (taskData !! "category") (oldTask !! "category") in
      let assigned : option (option object) :=
        if changed
        then match pointsMapping_at (taskData !! "category") with
             | Some pts => Some (Some (<["points" := pts]> taskData))
             | None =>
                 match inherited (taskData !! "category") with
                 | IsUndefined => Some (Some (delete "points" taskData))
                 | IsFunction =>
                     if map_any (entry_unmodelled Task_schema)
                                (delete "points" taskData)
                     then None
                     else Some None
                 | IsPrototype => None
                 end
             end
        else Some (Some taskData) in
      match assigned with
      | Some (Some taskData) =>
          match Task_findByIdAndUpdate (tasks d) taskId taskData with
          | Updated (Some task) coll => Finished (Json 200 task, set_tasks d coll)
          | Updated None coll => Finished (Empty 200, set_tasks d coll)
          | UpdateThrows => Finished (Failure 500, d)
          | UpdateUnmodelled => Unmodelled
          end
      | Some None => Finished (Failure 500, d)
      | None => Unmodelled
      end
  end.

(** [deleteTask] *)
Definition deleteTask (d : db) (taskId : string) : response object * db :=
  if missing taskId then (Message 400 "Task ID requireed", d)
  else match tasks d !! taskId with
  | None => (Message 404 "Task not found", d)
  | Some task =>
      match Task_deleteOne d taskId task with
      | Deleted d' => (Empty 200, d')
      | Aborted _ d' => (Failure 500, d')
      end
  end.

(** ** Cascading deletes of notes and folders *)

(** Run a delete over a list of ids, stopping at the first one that
    aborts. *)
Fixpoint deleteEach (del : db → string → cascade) (ids : list string) (d : db)
  : cascade :=
  match ids with
  | [] => Deleted d
  | id :: rest =>
      match del d id with
      | Deleted d' => deleteEach del rest d'
      | Aborted e d' => Aborted e d'
      end
  end.

(** The task case of the cascade: the task is looked up and deleted as a
    document, which runs the hook of the Task model. *)
Definition deleteSubtree_Task (d : db) (taskId : string) : cascade :=
  match tasks d !! taskId with
  | None => Aborted NotFound d
  | Some task => Task_deleteOne d taskId task
  end.

(** Modelled from the spec: the pre-delete hook of the Note model, which is
    not part of the sources at hand.  For each task id in the note's list the
    task subtree is deleted; then the note record is deleted and the note id
    is detached from the owning folder, which fails when that folder does
    not resolve. *)
Definition Note_deleteOne (d : db) (id : string) (this : note) : cascade :=
  match deleteEach deleteSubtree_Task (note_tasks this) d with
  | Deleted d1 =>
      let d2 := set_notes d1 (delete id (notes d1)) in
      match folders d2 !! note_folder this with
      | None => Aborted ParentNotFound d2
      | Some f =>
          Deleted (set_folders d2
                     (<[note_folder this :=
                          {| folder_user := folder_user f;
                             folder_name := folder_name f;
                             folder_notes := pull (folder_notes f) id |}]>
                        (folders d2)))
      end
  | Aborted e d1 => Aborted e d1
  end.

Definition deleteSubtree_Note (d : db) (noteId : string) : cascade :=
  match notes d !! noteId with
  | None => Aborted NotFound d
  | Some nt => Note_deleteOne d noteId nt
  end.

(** Modelled from the spec: the pre-delete hook of the Folder model, which
    is not part of the sources at hand.  For each note id in the folder's
    list the note subtree is deleted; then the folder record is deleted and
    the folder id is detached from the owning user, which fails when that
    user does not resolve. *)
Definition Folder_deleteOne (d : db) (id : string) (this : folder) : cascade :=
  match deleteEach deleteSubtree_Note (folder_notes this) d with
  | Deleted d1 =>
      let d2 := set_folders d1 (delete id (folders d1)) in
      match users d2 !! folder_user this with
      | None => Aborted ParentNotFound d2
      | Some u =>
          Deleted (set_users d2
                     (<[folder_user this :=
                          {| user_email := user_email u;
                             user_password := user_password u;
                             user_folders := pull (user_folders u) id;
                             user_pets := user_pets u |}]>
                        (users d2)))
      end
  | Aborted e d1 => Aborted e d1
  end.

(** ** Folder controller *)

(** [createFolder]: [name] is [req.body.name] and [newId] the id that
    [new Folder] generates.  The Folder and User models are not part of the
    sources at hand: [save] is the insertion of the document. *)
Definition createFolder (d : db) (userId : string) (name : option value)
    (newId : string) : response folder * db :=
  match name with
  | None => (Message 400 "Required fields missing", d)
  | Some nm =>
      if negb (truthy name) || missing userId
      then (Message 400 "Required fields missing", d)
      else match users d !! userId with
      | None => (Message 404 "User not found", d)
      | Some u =>
          let f := {| folder_user := userId; folder_name := nm;
                      folder_notes := [] |} in
          let u' := {| user_email := user_email u;
                       user_password := user_password u;
                       user_folders := attachChild (user_folders u) newId;
                       user_pets := user_pets u |} in
          (Json 201 f,
           set_users (set_folders d (<[newId := f]> (folders d)))
                     (<[userId := u']> (users d)))
      end
  end.

(** [deleteFolder]: [folder.deleteOne()] runs the cascade of the Folder
    model. *)
Definition deleteFolder (d : db) (folderId : string) : response folder * db :=
  if missing folderId then (Message 400 "Folder ID required", d)
  else match folders d !! folderId with
  | None => (Message 404 "Folder not found", d)
  | Some f =>
      match Folder_deleteOne d folderId f with
      | Deleted d' => (Empty 200, d')
      | Aborted _ d' => (Failure 500, d')
      end
  end.

(** ** Ownership, read off the child lists *)

(** Note [n] is in the list of folder [F]. *)
Definition folder_owns_note (d : db) (F n : string) : Prop :=
  ∃ f, folders d !! F = Some f ∧ n ∈ folder_notes f.

(** Task [t] is in the list of a note that is in the list of folder [F]. *)
Definition folder_owns_task (d : db) (F t : string) : Prop :=
  ∃ n nt, folder_owns_note d F n ∧ notes d !! n = Some nt ∧ t ∈ note_tasks nt.

(** What every step of a cascade does to the store, from [d] to [d']: no
    task or note record comes back, users are left alone, and a task that a
    note listed in [d] is still listed by that note in [d'] unless its
    record is gone. *)
Record cascade_step (d d' : db) : Prop := CascadeStep {
  step_tasks : ∀ t, tasks d !! t = None → tasks d' !! t = None;
  step_notes : ∀ n, notes d !! n = None → notes d' !! n = None;
  step_users : users d' = users d;
  step_lists : ∀ n nt nt' t,
    notes d !! n = Some nt → notes d' !! n = Some nt' →
    t ∈ note_tasks nt → t ∈ note_tasks nt' ∨ tasks d' !! t = None
}.

(** ** The read handlers and the remaining write handlers *)

(** [Model.findById(id).populate(path)] on an array of references: every id
    that resolves is replaced by its document, in the order of the array;
    ids that do not resolve are left out.  A document is paired with its
    [_id]. *)
Definition populate {A : Type} (coll : gmap string A) (ids : list string)
  : list (string * A) :=
  omap (λ id, (λ doc, (id, doc)) <$> coll !! id) ids.

(** [getPet] *)
Definition getPet (d : db) (petId : string) : response object :=
  if missing petId then Message 400 "Pet ID required"
  else match pets d !! petId with
  | None => Message 404 "Pet not found"
  | Some pet => Json 200 pet
  end.


(** [getFolders] *)
Definition getFolders (d : db) (userId : string)
  : response (list (string * folder)) :=
  if missing userId then Message 400 "User ID required"
  else match users d !! userId with
  | None => Message 404 "User not found"
  | Some u => Json 200 (populate (folders d) (user_folders u))
  end.

(** [updateFolder]: [name] is [req.body.name]. *)
Definition updateFolder (d : db) (folderId : string) (name : option value)
  : response folder * db :=
  match name with
  | None => (Message 400 "Required fields missing", d)
  | Some nm =>
      if missing folderId || negb (truthy name)
      then (Message 400 "Required fields missing", d)
      else match folders d !! folderId with
      | None => (Message 404 "Folder not found", d)
      | Some f =>
          let f' := {| folder_user := folder_user f; folder_name := nm;
                       folder_notes := folder_notes f |} in
          (Json 200 f', set_folders d (<[folderId := f']> (folders d)))
      end
  end.

(** [getTasks] *)
Definition getTasks (d : db) (noteId : string)
  : response (list (string * object)) :=
  if missing noteId then Message 400 "Note ID required"
  else match notes d !! noteId with
  | None => Message 404 "Note not found"
  | Some nt => Json 200 (populate (tasks d) (note_tasks nt))
  end.

(** ** The Folder component of the client *)

(** The props the click handler reads: whether [onClick] was passed, and
    [editing]. *)
Record FolderProps : Type := {
  onClick_given : bool;
  editing : bool
}.

(** [handleClick]: from the state [clickedOnce] to the new state and whether
    [onClick()] is called. *)
Definition handleClick (props : FolderProps) (clickedOnce : bool) : bool * bool :=
  if negb clickedOnce then (true, false)
  else (clickedOnce, onClick_given props && negb (editing props)).

(** The document-level listener: [inside] is
    [folderRef.current.contains(event.target)]; the folder is mounted, so
    [folderRef.current] is set. *)
Definition handleOutsideClick (inside : bool) (clickedOnce : bool) : bool :=
  if negb inside then false else clickedOnce.

(** A click somewhere in the document.  A click on the folder runs
    [handleClick] and then reaches the document listener with a target
    inside the folder; a click elsewhere reaches the listener only. *)
Inductive click : Type := OnFolder | Elsewhere.

Definition onDocumentClick (props : FolderProps) (c : click) (clickedOnce : bool)
  : bool * bool :=
  match c with
  | OnFolder =>
      let '(st, called) := handleClick props clickedOnce in
      (handleOutsideClick true st, called)
  | Elsewhere => (handleOutsideClick false clickedOnce, false)
  end.

(** The component over a sequence of clicks, from the state [clickedOnce]:
    the final state, and for each click whether it called [onClick()]. *)
Fixpoint clicks (props : FolderProps) (cs : list click) (clickedOnce : bool)
  : bool * list bool :=
  match cs with
  | [] => (clickedOnce, [])
  | c :: rest =>
      let '(st, called) := onDocumentClick props c clickedOnce in
      let '(final, calls) := clicks props rest st in
      (final, called :: calls)
  end.

(** ** Consistency of the child lists *)

(** Every task id in a note's list resolves to a task whose [note] is that
    note. *)
Definition tasks_consistent (d : db) : Prop :=
  ∀ n nt t, notes d !! n = Some nt → t ∈ note_tasks nt →
    ∃ task, tasks d !! t = Some task ∧ task_note task = Some n.

(** Every folder id in a user's list resolves to a folder whose [user] is
    that user. *)
Definition folders_consistent (d : db) : Prop :=
  ∀ u ur f, users d !! u = Some ur → f ∈ user_folders ur →
    ∃ fr, folders d !! f = Some fr ∧ folder_user fr = u.

(** ** Sample data

    One user with one pet and one folder; the folder holds one note with two
    tasks. *)

Definition sample_pet : object :=
  {[ "name" := VStr "Mochi"; "type" := VStr "cat";
     "level" := VNum 1; "points" := VNum 80 ]}.

Definition sample_task (noteId name : string) : object :=
  {[ "user" := VStr "u1"; "note" := VStr noteId; "name" := VStr name;
     "status" := VStr "pending"; "category" := VStr "easy";
     "points" := VNum 250 ]}.

Definition sample_db : db :=
  {| users := {[ "u1" := {| user_email := "sam@example.org";
                            user_password := "$2b$10$hash";
                            user_folders := ["f1"];
                            user_pets := ["p1"] |} ]};
     folders := {[ "f1" := {| folder_user := "u1";
                              folder_name := VStr "chores";
                              folder_notes := ["n1"] |} ]};
     notes := {[ "n1" := {| note_folder := "f1";
                            note_tasks := ["t1"; "t2"] |} ]};
     tasks := {[ "t1" := sample_task "n1" "water the plants";
                 "t2" := sample_task "n1" "feed the cat" ]};
     pets := {[ "p1" := sample_pet ]} |}.

(** The same store with a second note in the folder, which holds no task. *)
Definition sample_db_two_notes : db :=
  {| users := users sample_db;
     folders := {[ "f1" := {| folder_user := "u1";
                              folder_name := VStr "chores";
                              folder_notes := ["n1"; "n2"] |} ]};
     notes := {[ "n1" := {| note_folder := "f1";
                            note_tasks := ["t1"; "t2"] |};
                 "n2" := {| note_folder := "f1"; note_tasks := [] |} ]};
     tasks := tasks sample_db;
     pets := pets sample_db |}.

(** * Properties *)

(** ** The experience curve *)

Section LevelingFacts.
Local Open Scope R_scope.

Lemma Rpower_one_base (y : R) : Rpower 1 y = 1.
Proof. unfold Rpower. rewrite ln_1, Rmult_0_r. apply exp_0. Qed.

Lemma calculateRequiredExp_1 : calculateRequiredExp 1 = 100.
Proof.
  unfold calculateRequiredExp, BASE_EXP. rewrite Rpower_one_base. lra.
Qed.

Lemma calculateRequiredExp_ge (level : R) :
  1 <= level → 100 <= calculateRequiredExp level.
Proof.
  intros Hl. unfold calculateRequiredExp, BASE_EXP, EXPONENT.
  assert (1 <= Rpower level (15 / 10)) as H.
  { rewrite <- (Rpower_one_base (15 / 10)).
    apply Rle_Rpower_l; lra. }
  lra.
Qed.

Lemma calculateRequiredExp_pos (level : R) :
  1 <= level → 0 < calculateRequiredExp level.
Proof. intros Hl. pose proof (calculateRequiredExp_ge level Hl). lra. Qed.

(** ** The two loops *)

Lemma levelUp_exit (fuel : nat) (s : loop_state) :
  totalExp s < maxExp s → levelUp fuel s = Some s.
Proof.
  intros Hlt. destruct fuel; simpl; destruct (Rle_dec _ _); try lra; done.
Qed.

Lemma levelUp_step (fuel : nat) (s : loop_state) :
  maxExp s <= totalExp s →
  levelUp (S fuel) s =
    levelUp fuel {| totalExp := totalExp s - maxExp s;
                    newLevel := newLevel s + 1;
                    maxExp := calculateRequiredExp (newLevel s + 1) |}.
Proof. intros Hle. simpl. destruct (Rle_dec _ _); [done | lra]. Qed.

Lemma levelDown_exit (fuel : nat) (s : loop_state) :
  0 <= totalExp s ∨ newLevel s <= 1 → levelDown fuel s = Some s.
Proof.
  intros Hor. destruct fuel; simpl;
    destruct (Rlt_dec _ _); try done; destruct (Rlt_dec _ _); try done; lra.
Qed.

Lemma levelDown_step (fuel : nat) (s : loop_state) :
  totalExp s < 0 → 1 < newLevel s →
  levelDown (S fuel) s =
    levelDown fuel {| totalExp := totalExp s + calculateRequiredExp (newLevel s - 1);
                      newLevel := newLevel s - 1;
                      maxExp := calculateRequiredExp (newLevel s - 1) |}.
Proof.
  intros Hneg Hl. simpl.
  destruct (Rlt_dec _ _); [| lra]. destruct (Rlt_dec _ _); [done | lra].
Qed.

(** More fuel never changes a result. *)
Lemma levelUp_fuel_mono (fuel fuel' : nat) (s s' : loop_state) :
  (fuel ≤ fuel')%nat → levelUp fuel s = Some s' → levelUp fuel' s = Some s'.
Proof.
  revert fuel' s. induction fuel as [| fuel IH]; intros fuel' s Hle Hrun.
  - simpl in Hrun. destruct (Rle_dec (maxExp s) (totalExp s)); [done |].
    simplify_eq. apply levelUp_exit. lra.
  - destruct fuel' as [| fuel']; [lia |].
    simpl in *. destruct (Rle_dec _ _); [| done].
    apply IH; [lia | done].
Qed.

Lemma levelDown_fuel_mono (fuel fuel' : nat) (s s' : loop_state) :
  (fuel ≤ fuel')%nat → levelDown fuel s = Some s' → levelDown fuel' s = Some s'.
Proof.
  revert fuel' s. induction fuel as [| fuel IH]; intros fuel' s Hle Hrun.
  - simpl in Hrun.
    destruct (Rlt_dec (totalExp s) 0);
      [destruct (Rlt_dec 1 (newLevel s)); [done |] |];
      simplify_eq; apply levelDown_exit; lra.
  - destruct fuel' as [| fuel']; [lia |].
    simpl in *. destruct (Rlt_dec _ _); [| done].
    destruct (Rlt_dec _ _); [| done].
    apply IH; [lia | done].
Qed.

Lemma applyPoints_fuel_mono (fuel fuel' : nat) (level points delta : R) r :
  (fuel ≤ fuel')%nat →
  applyPoints fuel level points delta = Some r →
  applyPoints fuel' level points delta = Some r.
Proof.
  intros Hle. unfold applyPoints. intros Hrun.
  destruct (levelUp fuel _) as [s1 |] eqn:Hup; [| done]. simpl in Hrun.
  destruct (levelDown fuel s1) as [s2 |] eqn:Hdown; [| done]. simpl in Hrun.
  rewrite (levelUp_fuel_mono fuel fuel' _ s1 Hle Hup). simpl.
  rewrite (levelDown_fuel_mono fuel fuel' _ s2 Hle Hdown). done.
Qed.

(** The level-up loop ends: every turn takes at least 100 off the total. *)
Lemma levelUp_terminates (fuel : nat) (s : loop_state) :
  1 <= newLevel s → 100 <= maxExp s →
  totalExp s < 100 * (INR fuel + 1) →
  ∃ s', levelUp fuel s = Some s'.
Proof.
  revert s. induction fuel as [| fuel IH]; intros s Hl Hm Ht.
  - exists s. apply levelUp_exit. simpl in Ht. lra.
  - destruct (Rle_dec (maxExp s) (totalExp s)) as [Hge | Hlt].
    + rewrite levelUp_step by done. apply IH; simpl.
      * lra.
      * apply calculateRequiredExp_ge. lra.
      * rewrite S_INR in Ht. lra.
    + exists s. apply levelUp_exit. lra.
Qed.

(** The level-down loop ends: every turn takes 1 off the level. *)
Lemma levelDown_terminates (fuel : nat) (s : loop_state) :
  newLevel s <= INR fuel + 1 → ∃ s', levelDown fuel s = Some s'.
Proof.
  revert s. induction fuel as [| fuel IH]; intros s Hl.
  - exists s. apply levelDown_exit. right. simpl in Hl. lra.
  - destruct (Rlt_dec (totalExp s) 0) as [Hneg | Hpos];
      [destruct (Rlt_dec 1 (newLevel s)) as [Hgt | Hle] |].
    + rewrite levelDown_step by done. apply IH. simpl.
      rewrite S_INR in Hl. lra.
    + exists s. apply levelDown_exit. lra.
    + exists s. apply levelDown_exit. lra.
Qed.

(** What the level-up loop establishes and preserves, for an integer level
    [k + 1]. *)
Lemma levelUp_spec (fuel : nat) (s s' : loop_state) (k : nat) :
  levelUp fuel s = Some s' →
  newLevel s = INR (S k) → maxExp s = calculateRequiredExp (newLevel s) →
  ∃ k', newLevel s' = INR (S k') ∧ (k ≤ k')%nat ∧
        maxExp s' = calculateRequiredExp (newLevel s') ∧
        totalExp s' < maxExp s' ∧
        expToReach k' + totalExp s' = expToReach k + totalExp s ∧
        (0 <= totalExp s → 0 <= totalExp s') ∧
        (totalExp s < 0 → s' = s).
Proof.
  revert s k. induction fuel as [| fuel IH]; intros s k Hrun Hl Hm.
  - simpl in Hrun. destruct (Rle_dec _ _) as [| Hlt]; [done |]. simplify_eq.
    exists k. repeat split; try done; try lia; lra.
  - simpl in Hrun. destruct (Rle_dec _ _) as [Hge | Hlt].
    + apply (IH _ (S k)) in Hrun as (k' & Hl' & Hk & Hm' & Hlt' & Hsum & Hpos & _);
        simpl; [| rewrite Hl, <- S_INR; done | done].
      exists k'. repeat split; try done; try lia.
      * simpl in Hsum. rewrite Hsum. rewrite Hm, Hl. simpl. lra.
      * intros _. apply Hpos. simpl. lra.
      * intros Hneg.
        assert (0 < maxExp s).
        { rewrite Hm. apply calculateRequiredExp_pos. rewrite Hl.
          rewrite S_INR. pose proof (pos_INR k). lra. }
        lra.
    + simplify_eq. exists k. repeat split; try done; try lia; lra.
Qed.

Lemma INR_S_le_1 (k : nat) : ¬ 1 < INR (S k) → k = 0%nat.
Proof.
  intros Hle. destruct k as [| k]; [done |].
  rewrite !S_INR in Hle. pose proof (pos_INR k). lra.
Qed.

(** What the level-down loop establishes and preserves. *)
Lemma levelDown_spec (fuel : nat) (s s' : loop_state) (k : nat) :
  levelDown fuel s = Some s' →
  newLevel s = INR (S k) →
  ∃ k', newLevel s' = INR (S k') ∧ (k' ≤ k)%nat ∧
        expToReach k' + totalExp s' = expToReach k + totalExp s ∧
        (0 <= totalExp s' ∨ k' = 0%nat) ∧
        (totalExp s < calculateRequiredExp (newLevel s) →
         totalExp s' < calculateRequiredExp (newLevel s')) ∧
        (0 <= totalExp s → s' = s).
Proof.
  revert s k. induction fuel as [| fuel IH]; intros s k Hrun Hl.
  - simpl in Hrun.
    destruct (Rlt_dec (totalExp s) 0) as [Hneg | Hpos];
      [destruct (Rlt_dec 1 (newLevel s)) as [Hgt | Hle]; [done |] |];
      simplify_eq; exists k.
    + rewrite Hl in Hle. apply INR_S_le_1 in Hle.
      repeat split; try done; try lia; try lra; by right.
    + repeat split; try done; try lia; try lra; left; lra.
  - simpl in Hrun.
    destruct (Rlt_dec (totalExp s) 0) as [Hneg | Hpos];
      [destruct (Rlt_dec 1 (newLevel s)) as [Hgt | Hle] |].
    + destruct k as [| k].
      { rewrite Hl in Hgt. simpl in Hgt. lra. }
      assert (newLevel s - 1 = INR (S k)) as Hl1.
      { rewrite Hl, (S_INR (S k)). lra. }
      apply (IH _ k) in Hrun as (k' & Hl' & Hk & Hsum & Hfloor & Hlt & _);
        simpl; [| done].
      exists k'. repeat split; try done; try lia.
      * simpl in Hsum. rewrite Hsum. rewrite Hl1. simpl. lra.
      * intros _. apply Hlt. simpl. lra.
      * intros Hpos. lra.
    + simplify_eq. exists k. rewrite Hl in Hle. apply INR_S_le_1 in Hle.
      repeat split; try done; try lia; try lra; by right.
    + simplify_eq. exists k.
      repeat split; try done; try lia; try lra; left; lra.
Qed.

Lemma expToReach_S (k : nat) :
  expToReach (S k) = expToReach k + calculateRequiredExp (INR (S k)).
Proof. reflexivity. Qed.

Lemma expToReach_mono (k k' : nat) :
  (k ≤ k')%nat → expToReach k <= expToReach k'.
Proof.
  induction 1 as [| k' _ IH]; [lra |]. rewrite expToReach_S.
  assert (0 < calculateRequiredExp (INR (S k'))).
  { apply calculateRequiredExp_pos. rewrite S_INR. pose proof (pos_INR k'). lra. }
  lra.
Qed.

(** The leveling computation returns, from every integer level [k + 1]. *)
Lemma applyPoints_terminates (k : nat) (p d : R) :
  ∃ fuel r, applyPoints fuel (INR (S k)) p d = Some r.
Proof.
  destruct (INR_unbounded ((p + d) / 100)) as [N HN].
  set (s0 := {| totalExp := p + d; newLevel := INR (S k);
                maxExp := calculateRequiredExp (INR (S k)) |}).
  assert (1 <= INR (S k)) as Hk.
  { rewrite S_INR. pose proof (pos_INR k). lra. }
  destruct (levelUp_terminates N s0) as [s1 Hup]; simpl; [done | | |].
  { by apply calculateRequiredExp_ge. }
  { lra. }
  destruct (levelUp_spec N s0 s1 k Hup) as (k1 & Hl1 & _); [done | done |].
  destruct (levelDown_terminates k1 s1) as [s2 Hdown].
  { rewrite Hl1, S_INR. lra. }
  exists (N `max` k1)%nat, (newLevel s2, totalExp s2). unfold applyPoints.
  fold s0. rewrite (levelUp_fuel_mono N _ s0 s1) by (lia || done). simpl.
  rewrite (levelDown_fuel_mono k1 _ s1 s2) by (lia || done). done.
Qed.

(** The state the leveling computation returns. *)
Lemma applyPoints_spec (fuel k : nat) (p d l' p' : R) :
  applyPoints fuel (INR (S k)) p d = Some (l', p') →
  ∃ k', l' = INR (S k') ∧
        expToReach k' + p' = expToReach k + (p + d) ∧
        p' < calculateRequiredExp l' ∧
        (0 <= p' ∨ k' = 0%nat) ∧
        (0 <= p + d → 0 <= p').
Proof.
  unfold applyPoints. intros Hrun.
  destruct (levelUp fuel _) as [s1 |] eqn:Hup; [| done]. simpl in Hrun.
  destruct (levelDown fuel s1) as [s2 |] eqn:Hdown; [| done]. simpl in Hrun.
  simplify_eq.
  apply (levelUp_spec _ _ _ k) in Hup
    as (k1 & Hl1 & _ & Hm1 & Hlt1 & Hsum1 & Hpos1 & _); [| done | done].
  apply (levelDown_spec _ _ _ k1) in Hdown
    as (k2 & Hl2 & _ & Hsum2 & Hfloor & Hlt2 & Hsame); [| done].
  simpl in *. exists k2. repeat split; try done.
  - lra.
  - apply Hlt2. by rewrite <- Hm1.
  - intros Hnn. rewrite Hsame; auto.
Qed.

(** No loop turns: the total is below the requirement and not negative, or
    the level is not above 1. *)
Lemma applyPoints_no_turn (fuel : nat) (l p d : R) :
  p + d < calculateRequiredExp l → 0 <= p + d ∨ l <= 1 →
  applyPoints fuel l p d = Some (l, p + d).
Proof.
  intros Hlt Hor. unfold applyPoints.
  rewrite levelUp_exit by done. cbn -[levelUp levelDown].
  rewrite levelDown_exit by done. done.
Qed.

(** One turn of the level-up loop. *)
Lemma applyPoints_one_up (fuel : nat) (l p d : R) :
  calculateRequiredExp l <= p + d →
  p + d - calculateRequiredExp l < calculateRequiredExp (l + 1) →
  applyPoints (S fuel) l p d = Some (l + 1, p + d - calculateRequiredExp l).
Proof.
  intros Hge Hlt. unfold applyPoints.
  rewrite levelUp_step by done. cbn -[levelUp levelDown].
  rewrite levelUp_exit by done. cbn -[levelUp levelDown].
  rewrite levelDown_exit by (simpl; lra). done.
Qed.

(** The requirement of level 2 is [100 * sqrt 8], above 282 and below 283. *)
Lemma calculateRequiredExp_2 : 282 < calculateRequiredExp 2 < 283.
Proof.
  unfold calculateRequiredExp, BASE_EXP, EXPONENT.
  set (r := Rpower 2 (15 / 10)).
  assert (0 < r) as Hpos by apply exp_pos.
  assert (r * r = 8) as Hsq.
  { unfold r. rewrite <- Rpower_plus.
    replace (15 / 10 + 15 / 10) with (INR 3) by (simpl; lra).
    rewrite Rpower_pow by lra. lra. }
  split; nra.
Qed.

(** The run on a level-1 pet with 80 points that gains 250: one level-up,
    230 points left. *)
Lemma applyPoints_1_80_250 : applyPoints 1 1 80 250 = Some (2, 230).
Proof.
  rewrite (applyPoints_one_up 0); rewrite ?calculateRequiredExp_1.
  - do 2 f_equal; lra.
  - lra.
  - replace (1 + 1) with 2 by lra. pose proof calculateRequiredExp_2. lra.
Qed.

End LevelingFacts.

(** ** Leveling: the claims *)

Section LevelingClaims.
Local Open Scope R_scope.

(** C1, counterexample.  A level-1 pet with 0 points that loses 1 point ends
    at level 1 with -1 points, not with 0 points. *)
Lemma level_floor_counterexample :
  0 <= 0 ∧ -1 <= - (0 + 1) ∧
  applyPoints 5 1 0 (-1) = Some (1, -1) ∧
  applyPoints 5 1 0 (-1) ≠ Some (1, 0).
Proof.
  assert (applyPoints 5 1 0 (-1) = Some (1, -1)) as Hrun.
  { rewrite applyPoints_no_turn.
    - do 2 f_equal. lra.
    - rewrite calculateRequiredExp_1. lra.
    - right. lra. }
  repeat split; try lra; [done |].
  rewrite Hrun. intros Heq. injection Heq. lra.
Qed.

(** C1, amended.  For a level-1 pet with points [p >= 0] and a delta
    [<= -(p+1)], the leveling computation returns level 1 and points
    [p + delta]: the level stays 1 and the deficit is kept as negative
    points; nothing is clamped to 0. *)
Theorem level_floor_keeps_deficit (fuel : nat) (p delta : R) :
  0 <= p → delta <= - (p + 1) →
  applyPoints fuel 1 p delta = Some (1, p + delta).
Proof.
  intros Hp Hd. apply applyPoints_no_turn.
  - rewrite calculateRequiredExp_1. lra.
  - right. lra.
Qed.

Lemma level_floor_keeps_deficit_witness :
  0 <= 80 ∧ -100 <= - (80 + 1) ∧
  applyPoints 0 1 80 (-100) = Some (1, 80 + -100).
Proof.
  split; [lra |]. split; [lra |].
  apply (level_floor_keeps_deficit 0 80 (-100)); lra.
Defined.

(** C2, counterexample.  A level-1 pet with 0 points that loses 5 points
    ends with -5 points, which is outside [0, requiredExperience(1)). *)
Lemma pet_invariant_counterexample :
  applyPoints 5 1 0 (-5) = Some (1, -5) ∧ ¬ (0 <= -5).
Proof.
  split; [| lra].
  rewrite applyPoints_no_turn.
  - do 2 f_equal. lra.
  - rewrite calculateRequiredExp_1. lra.
  - right. lra.
Qed.

(** C2, amended.  From a pet with an integer level [n], [1 <= n <= 2^53],
    whatever the leveling computation returns is a level [>= 1] with points
    not above [calculateRequiredExp] of that level, and below it when the
    level has not gone down; the points are [>= 0] unless the level
    returned is 1; and when the points plus the delta were [>= 0] the
    points returned are in [0, calculateRequiredExp level).  The
    computation returns (with enough fuel, and then the same result for any
    more) when the points plus the delta are not above 2^53. *)
Theorem pet_state_after_leveling (n : nat) (p d : R) :
  (1 ≤ n)%nat → INR n <= 9007199254740992 →
  (∀ fuel l' p',
     applyPoints fuel (INR n) p d = Some (l', p') →
     1 <= l' ∧
     p' <= calculateRequiredExp l' ∧
     (INR n <= l' → p' < calculateRequiredExp l') ∧
     (0 <= p' ∨ l' = 1) ∧
     (0 <= p + d → 0 <= p' < calculateRequiredExp l')) ∧
  (p + d <= 9007199254740992 →
   ∃ fuel0 r, ∀ fuel, (fuel0 ≤ fuel)%nat → applyPoints fuel (INR n) p d = Some r).
Proof.
  intros Hn _. destruct n as [| k]; [lia |]. split.
  - intros fuel l' p' Hrun.
    destruct (applyPoints_spec _ _ _ _ _ _ Hrun)
      as (k' & -> & _ & Hlt & Hfloor & Hnn).
    repeat split; try done.
    + rewrite S_INR. pose proof (pos_INR k'). lra.
    + lra.
    + destruct Hfloor as [| ->]; [by left | by right].
    + by apply Hnn.
  - intros _. destruct (applyPoints_terminates k p d) as (fuel0 & r & Hrun).
    exists fuel0, r. intros fuel Hle. by apply (applyPoints_fuel_mono fuel0).
Qed.

Lemma pet_state_after_leveling_witness :
  (1 ≤ 1)%nat ∧ INR 1 <= 9007199254740992 ∧
  (∀ fuel l' p',
     applyPoints fuel (INR 1) 80 10 = Some (l', p') →
     1 <= l' ∧
     p' <= calculateRequiredExp l' ∧
     (INR 1 <= l' → p' < calculateRequiredExp l') ∧
     (0 <= p' ∨ l' = 1) ∧
     (0 <= 80 + 10 → 0 <= p' < calculateRequiredExp l')) ∧
  (80 + 10 <= 9007199254740992 →
   ∃ fuel0 r, ∀ fuel, (fuel0 ≤ fuel)%nat → applyPoints fuel (INR 1) 80 10 = Some r).
Proof.
  assert (INR 1 <= 9007199254740992) as H by (simpl; lra).
  split; [lia |]. split; [exact H |].
  exact (pet_state_after_leveling 1 80 10 ltac:(lia) H).
Defined.

Lemma level_1_points_100_delta_0 : applyPoints 5 1 100 0 = Some (2, 0).
Proof.
  rewrite (applyPoints_one_up 4); rewrite ?calculateRequiredExp_1.
  - do 2 f_equal; lra.
  - lra.
  - pose proof (calculateRequiredExp_pos (1 + 1)). lra.
Qed.

(** C7, counterexample.  Level 1 with 100 points is a state with level
    [>= 1] and points [>= 0]; a zero delta turns it into level 2 with 0
    points. *)
Lemma zero_delta_counterexample :
  1 <= 1 ∧ 0 <= 100 ∧
  applyPoints 5 1 100 0 = Some (2, 0) ∧
  applyPoints 5 1 100 0 ≠ Some (1, 100).
Proof.
  pose proof level_1_points_100_delta_0 as Hrun.
  repeat split; try lra; [done |].
  rewrite Hrun. intros Heq. injection Heq. lra.
Qed.

(** C7, amended.  For every state with level [l >= 1] and points [p] in
    [0, calculateRequiredExp l) a zero delta returns the state unchanged. *)
Theorem zero_delta_identity (fuel : nat) (l p : R) :
  1 <= l → 0 <= p < calculateRequiredExp l →
  applyPoints fuel l p 0 = Some (l, p).
Proof.
  intros _ [Hp Hlt]. rewrite applyPoints_no_turn.
  - do 2 f_equal. lra.
  - lra.
  - left. lra.
Qed.

Lemma zero_delta_identity_witness :
  1 <= 1 ∧ 0 <= 80 < calculateRequiredExp 1 ∧
  applyPoints 3 1 80 0 = Some (1, 80).
Proof.
  assert (1 <= 1) as Hl by lra.
  assert (0 <= 80 < calculateRequiredExp 1) as H.
  { rewrite calculateRequiredExp_1. lra. }
  split; [exact Hl |]. split; [exact H |].
  exact (zero_delta_identity 3 1 80 Hl H).
Defined.




End LevelingClaims.

(** ** Pet controller *)

(** The loop over the payload's keys, read key by key: a path of the schema
    takes the payload's value, which is of the path's kind; any other key
    becomes a property of the object. *)
Lemma applyOtherUpdates_spec (pet : document) (updates : object) :
  match applyOtherUpdates pet updates with
  | Some doc =>
      (∀ key, fields doc !! key =
         match updates !! key, path_kind Pet_schema key with
         | Some v, Some _ =>
             if decide (key = "points") then fields pet !! key else Some v
         | _, _ => fields pet !! key
         end) ∧
      (∀ key, props doc !! key =
         match updates !! key, path_kind Pet_schema key with
         | Some v, None => Some v
         | _, _ => props pet !! key
         end) ∧
      (∀ key v k, updates !! key = Some v → key ≠ "points" →
         path_kind Pet_schema key = Some k → has_kind v k = true)
  | None =>
      ∃ key v k, updates !! key = Some v ∧ key ≠ "points" ∧
        path_kind Pet_schema key = Some k ∧ has_kind v k = false
  end.
Proof.
  unfold applyOtherUpdates.
  apply (map_fold_weak_ind (λ (acc : option document) (m : object),
    match acc with
    | Some doc =>
        (∀ key, fields doc !! key =
           match m !! key, path_kind Pet_schema key with
           | Some v, Some _ =>
               if decide (key = "points") then fields pet !! key else Some v
           | _, _ => fields pet !! key
           end) ∧
        (∀ key, props doc !! key =
           match m !! key, path_kind Pet_schema key with
           | Some v, None => Some v
           | _, _ => props pet !! key
           end) ∧
        (∀ key v k, m !! key = Some v → key ≠ "points" →
           path_kind Pet_schema key = Some k → has_kind v k = true)
    | None =>
        ∃ key v k, m !! key = Some v ∧ key ≠ "points" ∧
          path_kind Pet_schema key = Some k ∧ has_kind v k = false
    end)).
  - split; [| split].
    + intros key. by rewrite lookup_empty.
    + intros key. by rewrite lookup_empty.
    + intros key v k Hkv. by rewrite lookup_empty in Hkv.
  - intros i x m acc Hi IH.
    destruct (decide (i ≠ "points")) as [Hne | Heq].
    + destruct acc as [doc |]; cbn -[path_kind].
      * destruct IH as (Hf & Hp & Hk). unfold assign.
        destruct (path_kind Pet_schema i) as [k |] eqn:Hpath.
        -- destruct (has_kind x k) eqn:Hkind.
           ++ split; [| split]; cbn -[path_kind].
              ** intros key. destruct (decide (key = i)) as [-> | Hki].
                 --- rewrite !lookup_insert_eq, Hpath. by rewrite decide_False.
                 --- rewrite !lookup_insert_ne by done. apply Hf.
              ** intros key. destruct (decide (key = i)) as [-> | Hki].
                 --- rewrite lookup_insert_eq, Hpath.
                     specialize (Hp i). by rewrite Hi in Hp.
                 --- rewrite lookup_insert_ne by done. apply Hp.
              ** intros key v k' Hkv Hkp Hk'.
                 destruct (decide (key = i)) as [-> | Hki].
                 --- rewrite lookup_insert_eq in Hkv. by simplify_eq.
                 --- rewrite lookup_insert_ne in Hkv by done. by apply (Hk key).
           ++ exists i, x, k. by rewrite lookup_insert_eq.
        -- split; [| split]; cbn -[path_kind].
           ** intros key. destruct (decide (key = i)) as [-> | Hki].
              --- rewrite lookup_insert_eq, Hpath.
                  specialize (Hf i). by rewrite Hi in Hf.
              --- rewrite lookup_insert_ne by done. apply Hf.
           ** intros key. destruct (decide (key = i)) as [-> | Hki].
              --- by rewrite !lookup_insert_eq, Hpath.
              --- rewrite !lookup_insert_ne by done. apply Hp.
           ** intros key v k' Hkv Hkp Hk'.
              destruct (decide (key = i)) as [-> | Hki]; [congruence |].
              rewrite lookup_insert_ne in Hkv by done. by apply (Hk key).
      * destruct IH as (key & v & k & Hkv & Hkp & Hk & Hkind).
        exists key, v, k. rewrite lookup_insert_ne by congruence. done.
    + apply dec_stable in Heq as ->.
      destruct acc as [doc |].
      * destruct IH as (Hf & Hp & Hk). split; [| split].
        -- intros key. assert (key = "points" ∨ key ≠ "points") as [-> | Hkp]
             by (destruct (decide (key = "points")); auto).
           ++ rewrite lookup_insert_eq. specialize (Hf "points").
              rewrite Hi in Hf. rewrite Hf. reflexivity.
           ++ rewrite lookup_insert_ne by done. apply Hf.
        -- intros key. assert (key = "points" ∨ key ≠ "points") as [-> | Hkp]
             by (destruct (decide (key = "points")); auto).
           ++ rewrite lookup_insert_eq. specialize (Hp "points").
              rewrite Hi in Hp. rewrite Hp. reflexivity.
           ++ rewrite lookup_insert_ne by done. apply Hp.
        -- intros key v k Hkv Hkp Hk'.
           rewrite lookup_insert_ne in Hkv by done. by apply (Hk key).
      * destruct IH as (key & v & k & Hkv & Hkp & Hk & Hkind).
        exists key, v, k. rewrite lookup_insert_ne by congruence. done.
Qed.

(** A settable entry is under a path of the schema and of the path's kind. *)
Lemma settable_has_kind (schema : list (string * kind)) (key : string) (v : value) :
  settable schema key v = true →
  ∃ k, path_kind schema key = Some k ∧ has_kind v k = true.
Proof.
  unfold settable. destruct (path_kind schema key) as [[| | |] |]; try done;
    destruct v; try done; intros _; by eexists.
Qed.


Lemma levelPet_no_points (fuel : nat) (pet updates : object) :
  updates !! "points" = None → levelPet fuel pet updates = Finished pet.
Proof. unfold levelPet. by intros ->. Qed.


(** What a run of [updatePet] that answers 200 went through. *)
Lemma updatePet_200 (fuel : nat) (d d' : db) (petId : string)
    (updates updatedPet : object) :
  updatePet fuel d petId updates = Finished (Json 200 updatedPet, d') →
  ∃ pet pet1 doc,
    pets d !! petId = Some pet ∧
    levelPet fuel pet updates = Finished pet1 ∧
    applyOtherUpdates {| fields := pet1; props := ∅ |} updates = Some doc ∧
    updatedPet = fields doc ∧
    d' = set_pets d (<[petId := updatedPet]> (pets d)).
Proof.
  unfold updatePet. destruct (missing petId); [done |].
  destruct (pets d !! petId) as [pet |]; [| done].
  destruct (levelPet fuel pet updates) as [pet1 | |] eqn:Hlevel; try done.
  destruct (applyOtherUpdates _ updates) as [doc |] eqn:Hdoc; [| done].
  unfold Document_save. destruct (props doc !! "save"); [done |].
  destruct (decide _); [| done]. intros [= <- <-].
  by exists pet, pet1, doc.
Qed.

(** A payload whose keys other than "points" set String and Number paths of
    the schema is saved, once the leveling block has finished: the saved pet
    holds the payload's values on top of what the leveling block left. *)
Lemma updatePet_settable (fuel : nat) (d : db) (petId : string)
    (pet pet1 updates : object) :
  petId ≠ EmptyString →
  pets d !! petId = Some pet →
  levelPet fuel pet updates = Finished pet1 →
  (∀ key v, updates !! key = Some v → key ≠ "points" →
     settable Pet_schema key v = true) →
  ∃ updatedPet,
    updatePet fuel d petId updates =
      Finished (Json 200 updatedPet,
                set_pets d (<[petId := updatedPet]> (pets d))) ∧
    ∀ key, updatedPet !! key =
      match updates !! key with
      | Some v => if decide (key = "points") then pet1 !! key else Some v
      | None => pet1 !! key
      end.
Proof.
  intros Hid Hpet Hlevel Hset. unfold updatePet, missing.
  rewrite decide_False by done. rewrite Hpet, Hlevel.
  pose proof (applyOtherUpdates_spec {| fields := pet1; props := ∅ |} updates)
    as Hspec.
  destruct (applyOtherUpdates _ updates) as [doc |].
  - destruct Hspec as (Hf & Hp & _). cbn -[path_kind] in Hf, Hp.
    assert (props doc = ∅) as Hempty.
    { apply map_eq. intros key. rewrite Hp, lookup_empty.
      destruct (updates !! key) as [v |] eqn:Hkv; [| done].
      destruct (decide (key = "points")) as [-> | Hkp]; [done |].
      destruct (settable_has_kind _ _ _ (Hset key v Hkv Hkp)) as (k & -> & _).
      done. }
    unfold Document_save. rewrite Hempty, lookup_empty, map_size_empty.
    rewrite decide_True by done.
    eexists. split; [done |]. intros key. rewrite Hf.
    destruct (updates !! key) as [v |] eqn:Hkv; [| done].
    destruct (decide (key = "points")) as [-> | Hkp]; [by simpl |].
    destruct (settable_has_kind _ _ _ (Hset key v Hkv Hkp)) as (k & -> & _).
    done.
  - destruct Hspec as (key & v & k & Hkv & Hkp & Hk & Hkind).
    destruct (settable_has_kind _ _ _ (Hset key v Hkv Hkp)) as (k' & Hk' & Hkind').
    congruence.
Qed.




(** ** Task controller *)

Lemma pointsMapping_lookup (c : string) (pts : value) :
  (c, pts) ∈ [("easy", VNum 250); ("medium", VNum 500); ("hard", VNum 1000)] →
  pointsMapping !! c = Some pts ∧ c ≠ EmptyString ∧ ∃ x, pts = VNum x.
Proof.
  rewrite !elem_of_cons, elem_of_nil.
  intros [? | [? | [? | []]]]; simplify_eq;
    (split; [done | split; [done | by eexists]]).
Qed.

(** [map_any] is the test of some entry. *)
Lemma map_any_true (test : string → value → bool) (m : object) :
  map_any test m = true ↔ ∃ key v, m !! key = Some v ∧ test key v = true.
Proof.
  unfold map_any.
  apply (map_fold_weak_ind (λ (acc : bool) (m : object),
    acc = true ↔ ∃ key v, m !! key = Some v ∧ test key v = true)).
  - split; [done |]. intros (key & v & Hkv & _). by rewrite lookup_empty in Hkv.
  - intros i x m' acc Hi IH. rewrite orb_true_iff, IH. split.
    + intros [(key & v & Hkv & Ht) | Ht].
      * exists key, v. rewrite lookup_insert_ne by congruence. done.
      * exists i, x. by rewrite lookup_insert_eq.
    + intros (key & v & Hkv & Ht).
      apply lookup_insert_Some in Hkv as [[<- <-] | [Hne Hkv]]; [by right |].
      left. by exists key, v.
Qed.

Lemma map_any_false (test : string → value → bool) (m : object) :
  map_any test m = false ↔ ∀ key v, m !! key = Some v → test key v = false.
Proof.
  rewrite <- not_true_iff_false, map_any_true. split.
  - intros Hno key v Hkv. apply not_true_iff_false. intros Ht.
    apply Hno. by exists key, v.
  - intros Hall (key & v & Hkv & Ht). rewrite (Hall key v Hkv) in Ht. done.
Qed.

(** A value of its path's kind is cast to itself. *)
Lemma kept_entry (schema : list (string * kind)) (key : string) (v : value)
    (k : kind) :
  path_kind schema key = Some k → has_kind v k = true →
  entry_unmodelled schema key v = false ∧ entry_throws schema key v = false.
Proof.
  intros Hk Hkind. unfold entry_unmodelled, entry_throws, cast.
  by rewrite Hk, Hkind.
Qed.

(** An update whose values are all of their paths' kinds sets them on the
    document. *)
Lemma Task_findByIdAndUpdate_kept (coll : gmap string object) (id : string)
    (update doc : object) :
  coll !! id = Some doc →
  (∀ key v, update !! key = Some v →
     ∃ k, path_kind Task_schema key = Some k ∧ has_kind v k = true) →
  Task_findByIdAndUpdate coll id update =
    Updated (Some (update ∪ doc)) (<[id := update ∪ doc]> coll).
Proof.
  intros Hdoc Hkept. unfold Task_findByIdAndUpdate.
  assert (map_any (entry_unmodelled Task_schema) update = false) as ->.
  { apply map_any_false. intros key v Hkv.
    destruct (Hkept key v Hkv) as (k & Hk & Hkind).
    by apply (kept_entry _ _ _ k). }
  assert (map_any (entry_throws Task_schema) update = false) as ->.
  { apply map_any_false. intros key v Hkv.
    destruct (Hkept key v Hkv) as (k & Hk & Hkind).
    by apply (kept_entry _ _ _ k). }
  by rewrite Hdoc.
Qed.

(** The condition under which [updateTask] re-derives the points is false
    when the category of the payload is falsy or is the stored one. *)
Lemma category_unchanged (taskData oldTask : object) :
  truthy (taskData !! "category") = false ∨
  taskData !! "category" = oldTask !! "category" →
  truthy (taskData !! "category")
    && strict_ne (taskData !! "category") (oldTask !! "category") = false.
Proof.
  intros [-> | ->]; [done |]. unfold strict_ne.
  rewrite decide_True by done. apply andb_false_r.
Qed.

(** [updateTask] when the points are not re-derived and every value of the
    payload is of its path's kind. *)
Lemma updateTask_plain (d : db) (taskId : string) (oldTask taskData : object) :
  taskId ≠ EmptyString →
  tasks d !! taskId = Some oldTask →
  truthy (taskData !! "category")
    && strict_ne (taskData !! "category") (oldTask !! "category") = false →
  (∀ key v, taskData !! key = Some v →
     ∃ k, path_kind Task_schema key = Some k ∧ has_kind v k = true) →
  updateTask d taskId taskData =
    Finished (Json 200 (taskData ∪ oldTask),
              set_tasks d (<[taskId := taskData ∪ oldTask]> (tasks d))).
Proof.
  intros Hid Hold Hcond Hkept. unfold updateTask, missing.
  rewrite decide_False by done. rewrite Hold, Hcond.
  by rewrite (Task_findByIdAndUpdate_kept _ _ _ oldTask).
Qed.

(** [updateTask] when the payload's category is in the table and differs
    from the stored one, and every other value of the payload, the points
    apart, is of its path's kind. *)
Lemma updateTask_rederived (d : db) (taskId : string) (oldTask taskData : object)
    (c : string) (pts : value) :
  taskId ≠ EmptyString →
  tasks d !! taskId = Some oldTask →
  (c, pts) ∈ [("easy", VNum 250); ("medium", VNum 500); ("hard", VNum 1000)] →
  taskData !! "category" = Some (VStr c) →
  oldTask !! "category" ≠ Some (VStr c) →
  (∀ key v, taskData !! key = Some v → key ≠ "points" →
     ∃ k, path_kind Task_schema key = Some k ∧ has_kind v k = true) →
  updateTask d taskId taskData =
    Finished (Json 200 (<["points" := pts]> taskData ∪ oldTask),
              set_tasks d
                (<[taskId := <["points" := pts]> taskData ∪ oldTask]> (tasks d))).
Proof.
  intros Hid Hold Hc Hcat Hne Hkept.
  apply pointsMapping_lookup in Hc as (Hpts & Hc & x & ->).
  unfold updateTask, missing. rewrite decide_False by done. rewrite Hold.
  unfold strict_ne, truthy, pointsMapping_at. rewrite Hcat.
  rewrite decide_False by done. rewrite decide_False by congruence.
  cbn [andb]. rewrite Hpts.
  rewrite (Task_findByIdAndUpdate_kept _ _ _ oldTask); [done | done |].
  intros key v Hkv.
  apply lookup_insert_Some in Hkv as [[<- <-] | [Hkp Hkv]].
  - by exists KNumber.
  - apply (Hkept key v); [done | congruence].
Qed.




(** C9, the code at a category outside the table.  For an existing task the
    payload [{ category: "extreme" }] is answered with 200 and the updated
    task, which now holds the category "extreme": nothing rejects the
    unmapped key. *)
Theorem updateTask_unmapped_category (d : db) (taskId : string) (oldTask : object) :
  taskId ≠ EmptyString →
  tasks d !! taskId = Some oldTask →
  pointsMapping_at (Some (VStr "extreme")) = None ∧
  ∃ task,
    updateTask d taskId {[ "category" := VStr "extreme" ]} =
      Finished (Json 200 task, set_tasks d (<[taskId := task]> (tasks d))) ∧
    task !! "category" = Some (VStr "extreme").
Proof.
  intros Hid Hold. split; [reflexivity |].
  unfold updateTask, missing. rewrite decide_False by done. rewrite Hold.
  rewrite !lookup_singleton_eq.
  replace (pointsMapping_at (Some (VStr "extreme"))) with (@None value)
    by reflexivity.
  replace (inherited (Some (VStr "extreme"))) with IsUndefined by reflexivity.
  assert (∀ update : object,
            update !! "category" = Some (VStr "extreme") →
            (∀ key v, update !! key = Some v → key = "category" ∧ v = VStr "extreme") →
            ∃ task,
              match Task_findByIdAndUpdate (tasks d) taskId update with
              | Updated (Some task) coll => Finished (Json 200 task, set_tasks d coll)
              | Updated None coll => Finished (Empty 200, set_tasks d coll)
              | UpdateThrows => Finished (Failure 500, d)
              | UpdateUnmodelled => Unmodelled
              end = Finished (Json 200 task,
                              set_tasks d (<[taskId := task]> (tasks d))) ∧
              task !! "category" = Some (VStr "extreme")) as Hupdate.
  { intros update Hcat Honly.
    rewrite (Task_findByIdAndUpdate_kept _ _ _ oldTask); [| done |].
    - eexists. split; [done |]. apply lookup_union_Some_raw. by left.
    - intros key v Hkv. destruct (Honly key v Hkv) as [-> ->]. by exists KString. }
  destruct (_ && _).
  - apply Hupdate.
    + by rewrite lookup_delete_ne.
    + intros key v Hkv. apply lookup_delete_Some in Hkv as [_ Hkv].
      apply lookup_singleton_Some in Hkv as [<- <-]. done.
  - apply Hupdate.
    + apply lookup_singleton_eq.
    + intros key v Hkv. apply lookup_singleton_Some in Hkv as [<- <-]. done.
Qed.

Lemma updateTask_unmapped_category_witness :
  "t1" ≠ EmptyString ∧
  tasks sample_db !! "t1" = Some (sample_task "n1" "water the plants") ∧
  pointsMapping_at (Some (VStr "extreme")) = None ∧
  ∃ task,
    updateTask sample_db "t1" {[ "category" := VStr "extreme" ]} =
      Finished (Json 200 task,
                set_tasks sample_db (<["t1" := task]> (tasks sample_db))) ∧
    task !! "category" = Some (VStr "extreme").
Proof.
  assert ("t1" ≠ EmptyString) as H1 by done.
  assert (tasks sample_db !! "t1" = Some (sample_task "n1" "water the plants"))
    as H2 by reflexivity.
  split; [exact H1 |]. split; [exact H2 |].
  exact (updateTask_unmapped_category sample_db "t1" _ H1 H2).
Defined.

Lemma not_elem_of_pull (children : list string) (childId : string) :
  childId ∉ pull children childId.
Proof. unfold pull. rewrite list_elem_of_filter. by intros [Hne _]. Qed.

Lemma elem_of_pull (children : list string) (childId c : string) :
  c ∈ pull children childId ↔ c ≠ childId ∧ c ∈ children.
Proof. unfold pull. by rewrite list_elem_of_filter. Qed.

(** [task.deleteOne()] when the owning note resolves. *)
Lemma Task_deleteOne_Deleted (d : db) (id : string) (this : object)
    (n : string) (nt : note) :
  task_note this = Some n → notes d !! n = Some nt →
  Task_deleteOne d id this =
    Deleted {| users := users d; folders := folders d;
               notes := <[n := {| note_folder := note_folder nt;
                                  note_tasks := pull (note_tasks nt) id |}]> (notes d);
               tasks := delete id (tasks d); pets := pets d |}.
Proof.
  intros Hn Hnt. unfold Task_deleteOne, Task_pre_deleteOne.
  rewrite Hn. simpl. rewrite Hnt. done.
Qed.

(** C4, counterexample.  The task "t1" is listed by the note "n1".  After
    [updateTask] with the payload [{ note: "n2" }], which answers 200 and
    touches no list, the task exists and [deleteTask] answers 200 and
    removes its record, while "n1" still lists "t1": a dangling id. *)
Lemma deleteTask_detaches_counterexample :
  ∃ task1 d1 d2,
    updateTask sample_db_two_notes "t1" {[ "note" := VStr "n2" ]} =
      Finished (Json 200 task1, d1) ∧
    tasks d1 !! "t1" = Some task1 ∧
    deleteTask d1 "t1" = (Empty 200, d2) ∧
    tasks d2 !! "t1" = None ∧
    notes d2 !! "n1" =
      Some {| note_folder := "f1"; note_tasks := ["t1"; "t2"] |} ∧
    "t1" ∈ ["t1"; "t2"].
Proof.
  eexists _, _, _. split; [reflexivity |]. split; [reflexivity |].
  split; [reflexivity |]. split; [reflexivity |]. split; [reflexivity |].
  apply list_elem_of_here.
Qed.

(** C4, amended.  For an existing task whose [note] names a note that
    resolves, [deleteTask] answers 200, the task record is gone, and that
    note's task list is its former list without the task id; the other
    notes, the folders and the users are untouched.  So no task list of the
    store holds the id afterwards when no other note listed it before, and
    a note other than that one which listed it still does. *)
Theorem deleteTask_detaches (d : db) (taskId : string) (task : object)
    (n : string) (nt : note) :
  taskId ≠ EmptyString →
  tasks d !! taskId = Some task →
  task_note task = Some n →
  notes d !! n = Some nt →
  ∃ d',
    deleteTask d taskId = (Empty 200, d') ∧
    tasks d' !! taskId = None ∧
    (∃ nt', notes d' !! n = Some nt' ∧
            note_tasks nt' = pull (note_tasks nt) taskId ∧
            taskId ∉ note_tasks nt') ∧
    (∀ m, m ≠ n → notes d' !! m = notes d !! m) ∧
    users d' = users d ∧ folders d' = folders d ∧
    ((∀ m mt, notes d !! m = Some mt → taskId ∈ note_tasks mt → m = n) →
     ∀ m mt, notes d' !! m = Some mt → taskId ∉ note_tasks mt).
Proof.
  intros Hid Htask Hn Hnt.
  eexists. split.
  { unfold deleteTask, missing. rewrite decide_False by done. rewrite Htask.
    by rewrite (Task_deleteOne_Deleted d taskId task n nt). }
  simpl. split; [apply lookup_delete_eq |].
  split; [| split; [| split; [done | split; [done |]]]].
  - eexists. split; [apply lookup_insert_eq |]. simpl.
    split; [done | apply not_elem_of_pull].
  - intros m Hm. by rewrite lookup_insert_ne.
  - intros Honly m mt Hmt Hin.
    destruct (decide (m = n)) as [-> | Hm].
    + rewrite lookup_insert_eq in Hmt. simplify_eq.
      by apply (not_elem_of_pull (note_tasks nt) taskId).
    + rewrite lookup_insert_ne in Hmt by done.
      by apply Hm, (Honly m mt).
Qed.

Lemma deleteTask_detaches_witness :
  "t1" ≠ EmptyString ∧
  tasks sample_db !! "t1" = Some (sample_task "n1" "water the plants") ∧
  task_note (sample_task "n1" "water the plants") = Some "n1" ∧
  notes sample_db !! "n1" = Some {| note_folder := "f1"; note_tasks := ["t1"; "t2"] |} ∧
  (∀ m mt, notes sample_db !! m = Some mt → "t1" ∈ note_tasks mt → m = "n1") ∧
  ∃ d',
    deleteTask sample_db "t1" = (Empty 200, d') ∧
    tasks d' !! "t1" = None ∧
    (∃ nt', notes d' !! "n1" = Some nt' ∧
            note_tasks nt' = pull ["t1"; "t2"] "t1" ∧
            "t1" ∉ note_tasks nt') ∧
    (∀ m, m ≠ "n1" → notes d' !! m = notes sample_db !! m) ∧
    users d' = users sample_db ∧ folders d' = folders sample_db ∧
    ((∀ m mt, notes sample_db !! m = Some mt → "t1" ∈ note_tasks mt → m = "n1") →
     ∀ m mt, notes d' !! m = Some mt → "t1" ∉ note_tasks mt).
Proof.
  assert ("t1" ≠ EmptyString) as H1 by done.
  assert (tasks sample_db !! "t1" = Some (sample_task "n1" "water the plants"))
    as H2 by reflexivity.
  assert (task_note (sample_task "n1" "water the plants") = Some "n1")
    as H3 by reflexivity.
  assert (notes sample_db !! "n1" =
            Some {| note_folder := "f1"; note_tasks := ["t1"; "t2"] |})
    as H4 by reflexivity.
  assert (∀ m mt, notes sample_db !! m = Some mt → "t1" ∈ note_tasks mt → m = "n1")
    as H5.
  { intros m mt Hm _. simpl in Hm.
    apply lookup_singleton_Some in Hm as [<- _]. reflexivity. }
  repeat (split; [assumption |]).
  exact (deleteTask_detaches sample_db "t1" _ "n1" _ H1 H2 H3 H4).
Defined.





(** [createTask] builds the document without a [user], which the schema
    requires: [save] rejects it, the handler answers 500, and the [push] on
    the note's task list is never reached. *)
Lemma createTask_leaves_store (d : db) (noteId : string) (name : option value)
    (newId : string) (now : R) :
  (createTask d noteId name newId now).2 = d.
Proof.
  unfold createTask. destruct name as [nm |]; [| done].
  destruct (negb _); [done |]. destruct (notes d !! noteId); [| done].
  unfold Task_save. simpl.
  rewrite bool_decide_eq_false_2; [done |].
  intros [v Hv]. by vm_compute in Hv.
Qed.

(** ** The cascade *)

Lemma cascade_step_refl (d : db) : cascade_step d d.
Proof. split; [done | done | done |]. intros n nt nt' t ? ? ?. left. congruence. Qed.

Lemma cascade_step_trans (d1 d2 d3 : db) :
  cascade_step d1 d2 → cascade_step d2 d3 → cascade_step d1 d3.
Proof.
  intros [Ht1 Hn1 Hu1 Hl1] [Ht2 Hn2 Hu2 Hl2]. split.
  - auto.
  - auto.
  - congruence.
  - intros n nt nt3 t Hnt Hnt3 Hin.
    destruct (notes d2 !! n) as [nt2 |] eqn:Hnt2.
    + destruct (Hl1 n nt nt2 t Hnt Hnt2 Hin) as [Hin2 | Hgone].
      * by apply (Hl2 n nt2 nt3 t).
      * right. by apply Ht2.
    + apply Hn2 in Hnt2. congruence.
Qed.

(** Deleting one task. *)
Lemma deleteSubtree_Task_Deleted (d d' : db) (taskId : string) :
  deleteSubtree_Task d taskId = Deleted d' →
  tasks d' !! taskId = None ∧ folders d' = folders d ∧ cascade_step d d'.
Proof.
  unfold deleteSubtree_Task, Task_deleteOne, Task_pre_deleteOne.
  destruct (tasks d !! taskId) as [task |]; [| done].
  destruct (task_note task) as [n |]; [| done]. simpl.
  destruct (notes d !! n) as [nt |] eqn:Hnt; [| done]. simpl.
  intros [= <-]. simpl. split; [apply lookup_delete_eq |]. split; [done |].
  split; simpl.
  - intros t Ht. destruct (decide (t = taskId)) as [-> | Hne].
    + apply lookup_delete_eq.
    + by rewrite lookup_delete_ne.
  - intros m Hm. rewrite lookup_insert_ne; [done | congruence].
  - done.
  - intros m mt mt' t Hmt Hmt' Hin.
    destruct (decide (t = taskId)) as [-> | Hne].
    { right. apply lookup_delete_eq. }
    left. destruct (decide (m = n)) as [-> | Hm].
    + rewrite lookup_insert_eq in Hmt'. simplify_eq. simpl.
      by apply elem_of_pull.
    + rewrite lookup_insert_ne in Hmt' by done. congruence.
Qed.

(** Deleting the tasks of a list, one after the other. *)
Lemma deleteEach_Task_Deleted (ids : list string) (d d' : db) :
  deleteEach deleteSubtree_Task ids d = Deleted d' →
  (∀ t, t ∈ ids → tasks d' !! t = None) ∧
  folders d' = folders d ∧ cascade_step d d'.
Proof.
  revert d. induction ids as [| id ids IH]; intros d Hrun; simpl in Hrun.
  - simplify_eq. split; [by intros t ?%elem_of_nil |].
    split; [done | apply cascade_step_refl].
  - destruct (deleteSubtree_Task d id) as [d1 | e d1] eqn:Hone; [| done].
    apply deleteSubtree_Task_Deleted in Hone as (Hgone & Hf1 & Hstep1).
    apply IH in Hrun as (Hall & Hf & Hstep). split; [| split].
    + intros t [-> | Hin]%elem_of_cons; [| by apply Hall].
      by apply (step_tasks _ _ Hstep).
    + congruence.
    + by apply (cascade_step_trans d d1 d').
Qed.

(** Deleting one note with its tasks. *)
Lemma deleteSubtree_Note_Deleted (d d' : db) (noteId : string) :
  deleteSubtree_Note d noteId = Deleted d' →
  ∃ nt, notes d !! noteId = Some nt ∧
        notes d' !! noteId = None ∧
        (∀ t, t ∈ note_tasks nt → tasks d' !! t = None) ∧
        (∀ F, folders d !! F = None → folders d' !! F = None) ∧
        cascade_step d d'.
Proof.
  unfold deleteSubtree_Note, Note_deleteOne.
  destruct (notes d !! noteId) as [nt |] eqn:Hnt; [| done].
  destruct (deleteEach _ _ d) as [d1 | e d1] eqn:Htasks; [| done].
  apply deleteEach_Task_Deleted in Htasks as (Hall & Hf & Hstep).
  simpl. destruct (folders d1 !! note_folder nt) as [f |] eqn:Hfolder; [| done].
  intros [= <-]. exists nt. simpl. split; [done |].
  split; [apply lookup_delete_eq |]. split; [done |]. split.
  - intros F HF. rewrite lookup_insert_ne; [congruence |].
    intros <-. congruence.
  - apply (cascade_step_trans d d1); [done |]. split; simpl.
    + done.
    + intros m Hm. destruct (decide (m = noteId)) as [-> | Hne].
      * apply lookup_delete_eq.
      * by rewrite lookup_delete_ne.
    + done.
    + intros m mt mt' t Hmt Hmt' Hin. left.
      destruct (decide (m = noteId)) as [-> | Hne].
      * by rewrite lookup_delete_eq in Hmt'.
      * rewrite lookup_delete_ne in Hmt' by done. congruence.
Qed.

(** Deleting the notes of a list, one after the other.  The tasks are those
    the notes listed in the store the cascade started from. *)
Lemma deleteEach_Note_Deleted (ids : list string) (d0 d d' : db) :
  cascade_step d0 d →
  deleteEach deleteSubtree_Note ids d = Deleted d' →
  (∀ n, n ∈ ids → notes d' !! n = None) ∧
  (∀ n nt t, n ∈ ids → notes d0 !! n = Some nt → t ∈ note_tasks nt →
     tasks d' !! t = None) ∧
  (∀ F, folders d !! F = None → folders d' !! F = None) ∧
  cascade_step d0 d'.
Proof.
  revert d0 d.
  induction ids as [| id ids IH]; intros d0 d Hstep0 Hrun; simpl in Hrun.
  - simplify_eq. split; [by intros n ?%elem_of_nil |].
    split; [by intros n nt t ?%elem_of_nil |]. done.
  - destruct (deleteSubtree_Note d id) as [d1 | e d1] eqn:Hone; [| done].
    apply deleteSubtree_Note_Deleted in Hone
      as (nt1 & Hnt1 & Hgone & Htasks & Hfolders1 & Hstep1).
    pose proof (cascade_step_trans d0 d d1 Hstep0 Hstep1) as Hstep01.
    destruct (IH d0 d1 Hstep01 Hrun) as (Hnotes & Hall & Hfolders & Hstep).
    assert (cascade_step d1 d') as Hstep1'.
    { destruct (IH d1 d1 (cascade_step_refl d1) Hrun) as (_ & _ & _ & H).
      exact H. }
    split; [| split; [| split]].
    + intros n [-> | Hin]%elem_of_cons; [| by apply Hnotes].
      by apply (step_notes _ _ Hstep1').
    + intros n nt t [-> | Hin]%elem_of_cons Hnt Ht; [| by apply (Hall n nt)].
      apply (step_tasks _ _ Hstep1').
      destruct (step_lists _ _ Hstep0 id nt nt1 t Hnt Hnt1 Ht) as [Hin1 | Hgone1].
      * by apply Htasks.
      * by apply (step_tasks _ _ Hstep1).
    + auto.
    + done.
Qed.

(** C3.  When [deleteFolder] answers 200 on an existing folder [F], the
    folder record is gone, no note that [F] listed and no task that such a
    note listed resolves any more, and the owning user resolves to a record
    whose folder list does not hold [F]. *)
Theorem deleteFolder_cascade (d d' : db) (F : string) (f : folder) :
  folders d !! F = Some f →
  deleteFolder d F = (Empty 200, d') →
  folders d' !! F = None ∧
  (∀ n, folder_owns_note d F n → notes d' !! n = None) ∧
  (∀ t, folder_owns_task d F t → tasks d' !! t = None) ∧
  (∃ u, users d' !! folder_user f = Some u ∧ F ∉ user_folders u).
Proof.
  intros Hf. unfold deleteFolder. destruct (missing F); [done |]. rewrite Hf.
  unfold Folder_deleteOne.
  destruct (deleteEach _ _ d) as [d1 | e d1] eqn:Hnotes; [| done].
  apply (deleteEach_Note_Deleted _ d) in Hnotes
    as (Hgone & Hall & _ & Hstep); [| apply cascade_step_refl].
  simpl. destruct (users d1 !! folder_user f) as [u |] eqn:Hu; [| done].
  intros [= <-]. simpl. split; [apply lookup_delete_eq |]. split; [| split].
  - intros n (f' & Hf' & Hin). simplify_eq. by apply Hgone.
  - intros t (n & nt & (f' & Hf' & Hin) & Hnt & Ht). simplify_eq.
    by apply (Hall n nt).
  - eexists. split; [apply lookup_insert_eq |]. simpl. apply not_elem_of_pull.
Qed.

Lemma deleteFolder_cascade_witness :
  let d' := (deleteFolder sample_db "f1").2 in
  folders sample_db !! "f1" =
    Some {| folder_user := "u1"; folder_name := VStr "chores";
            folder_notes := ["n1"] |} ∧
  deleteFolder sample_db "f1" = (Empty 200, d') ∧
  folders d' !! "f1" = None ∧
  (∀ n, folder_owns_note sample_db "f1" n → notes d' !! n = None) ∧
  (∀ t, folder_owns_task sample_db "f1" t → tasks d' !! t = None) ∧
  (∃ u, users d' !! "u1" = Some u ∧ "f1" ∉ user_folders u).
Proof.
  intros d'.
  assert (folders sample_db !! "f1" =
            Some {| folder_user := "u1"; folder_name := VStr "chores";
                    folder_notes := ["n1"] |}) as H1 by reflexivity.
  assert (deleteFolder sample_db "f1" = (Empty 200, d')) as H2
    by (vm_compute; reflexivity).
  split; [exact H1 |]. split; [exact H2 |].
  exact (deleteFolder_cascade sample_db d' "f1" _ H1 H2).
Defined.

(** * Further properties *)

(** ** The leveling computation as a whole *)

Section LevelingMore.
Local Open Scope R_scope.

(** What a run from an integer level [k + 1] returns: a total that is not
    negative never lowers the level and leaves no negative points, a total
    below the requirement never raises the level. *)
Lemma applyPoints_run (fuel k : nat) (p d l' p' : R) :
  applyPoints fuel (INR (S k)) p d = Some (l', p') →
  ∃ k', l' = INR (S k') ∧
        (0 <= p' ∨ k' = 0%nat) ∧
        (0 <= p + d → (k ≤ k')%nat ∧ 0 <= p') ∧
        (p + d < calculateRequiredExp (INR (S k)) → (k' ≤ k)%nat) ∧
        (p + d < 0 → expToReach k' + p' = expToReach k + (p + d)).
Proof.
  intros Hrun. unfold applyPoints in Hrun.
  destruct (levelUp fuel _) as [s1 |] eqn:Hup; [| done]. simpl in Hrun.
  destruct (levelDown fuel s1) as [s2 |] eqn:Hdown; [| done]. simpl in Hrun.
  simplify_eq.
  pose proof Hup as Hup'.
  apply (levelUp_spec _ _ _ k) in Hup'
    as (k1 & Hl1 & Hk1 & Hm1 & Hlt1 & Hsum1 & Hpos1 & Hneg1); [| done | done].
  pose proof Hdown as Hdown'.
  apply (levelDown_spec _ _ _ k1) in Hdown'
    as (k2 & Hl2 & Hk2 & Hsum2 & Hfloor & Hlt2 & Hsame); [| done].
  cbn [totalExp newLevel maxExp] in *. exists k2. repeat split.
  - done.
  - done.
  - rewrite (Hsame (Hpos1 H)) in Hl2. rewrite Hl1 in Hl2.
    apply INR_eq in Hl2. lia.
  - rewrite Hsame; auto.
  - intros Hlt. rewrite levelUp_exit in Hup by done. simplify_eq.
    cbn [totalExp newLevel maxExp] in *.
    apply INR_eq in Hl1. lia.
  - intros _. lra.
Qed.

(** X4.  A larger delta never gives a lower level: when the runs with two
    deltas from the same state both return, the larger delta's level is not
    the lower one. *)
Theorem leveling_monotone (fuel1 fuel2 k : nat) (p d1 d2 l1 p1 l2 p2 : R) :
  INR (S k) <= 9007199254740992 → d1 <= d2 →
  applyPoints fuel1 (INR (S k)) p d1 = Some (l1, p1) →
  applyPoints fuel2 (INR (S k)) p d2 = Some (l2, p2) →
  l1 <= l2.
Proof.
  intros _ Hd Hrun1 Hrun2.
  destruct (applyPoints_run _ _ _ _ _ _ Hrun1)
    as (k1 & -> & Hfloor1 & Hgain1 & Hloss1 & Hsum1).
  destruct (applyPoints_run _ _ _ _ _ _ Hrun2)
    as (k2 & -> & Hfloor2 & Hgain2 & Hloss2 & Hsum2).
  apply le_INR, le_n_S.
  destruct (Rle_dec 0 (p + d2)) as [Hpos2 | Hneg2].
  - destruct (Hgain2 Hpos2) as [Hk2 _].
    destruct (Rle_dec 0 (p + d1)) as [Hpos1 | Hneg1].
    + destruct (decide (k1 ≤ k2)%nat) as [| Hgt]; [done |]. exfalso.
      destruct (applyPoints_spec _ _ _ _ _ _ Hrun1)
        as (k1' & Heq1 & Hs1 & _ & _ & Hnn1).
      destruct (applyPoints_spec _ _ _ _ _ _ Hrun2)
        as (k2' & Heq2 & Hs2 & Hlt2 & _ & _).
      apply INR_eq in Heq1, Heq2. simplify_eq.
      assert (S k2' ≤ k1')%nat as Hle by lia.
      pose proof (expToReach_mono _ _ Hle) as Hm. rewrite expToReach_S in Hm.
      specialize (Hnn1 Hpos1). lra.
    + assert (p + d1 < calculateRequiredExp (INR (S k))) as Hlt.
      { assert (1 <= INR (S k)) as Hk.
        { rewrite S_INR. pose proof (pos_INR k). lra. }
        pose proof (calculateRequiredExp_pos _ Hk). lra. }
      specialize (Hloss1 Hlt). lia.
  - assert (p + d1 < 0) as Hneg1 by lra. assert (p + d2 < 0) as Hneg2' by lra.
    specialize (Hsum1 Hneg1). specialize (Hsum2 Hneg2').
    destruct (decide (k1 ≤ k2)%nat) as [| Hgt]; [done |]. exfalso.
    assert (S k2 ≤ k1)%nat as Hle by lia.
    pose proof (expToReach_mono _ _ Hle) as Hm. rewrite expToReach_S in Hm.
    destruct (applyPoints_spec _ _ _ _ _ _ Hrun2)
      as (k2' & Heq2 & _ & Hlt2 & _ & _).
    apply INR_eq in Heq2. simplify_eq.
    destruct Hfloor1 as [Hp1 | ->]; [lra | lia].
Qed.

Lemma leveling_monotone_witness :
  INR 1 <= 9007199254740992 ∧ 0 <= 250 ∧
  applyPoints 1 (INR 1) 80 0 = Some (1, 80) ∧
  applyPoints 1 (INR 1) 80 250 = Some (2, 230) ∧
  1 <= 2.
Proof.
  assert (INR 1 <= 9007199254740992) as Hk by (simpl; lra).
  assert (0 <= 250) as Hd by lra.
  assert (applyPoints 1 (INR 1) 80 0 = Some (1, 80)) as Hrun1.
  { simpl. rewrite applyPoints_no_turn.
    - do 2 f_equal. lra.
    - rewrite calculateRequiredExp_1. lra.
    - left. lra. }
  assert (applyPoints 1 (INR 1) 80 250 = Some (2, 230)) as Hrun2.
  { simpl. apply applyPoints_1_80_250. }
  split; [exact Hk |]. split; [exact Hd |].
  split; [exact Hrun1 |]. split; [exact Hrun2 |].
  exact (leveling_monotone 1 1 0 80 0 250 1 80 2 230 Hk Hd Hrun1 Hrun2).
Defined.

(** X6.  Whatever the run returns: points gained on points that are not
    negative never lower the level and never leave negative points; points
    taken from points below the requirement never raise the level. *)
Theorem leveling_direction (fuel k : nat) (p d l' p' : R) :
  INR (S k) <= 9007199254740992 →
  applyPoints fuel (INR (S k)) p d = Some (l', p') →
  (0 <= p → 0 <= d → INR (S k) <= l' ∧ 0 <= p') ∧
  (p < calculateRequiredExp (INR (S k)) → d <= 0 → l' <= INR (S k)).
Proof.
  intros _ Hrun.
  destruct (applyPoints_run _ _ _ _ _ _ Hrun)
    as (k' & -> & _ & Hgain & Hloss & _).
  split.
  - intros Hp Hd. destruct Hgain as [Hk Hp']; [lra |].
    split; [| done]. apply le_INR. lia.
  - intros Hp Hd. apply le_INR. apply le_n_S. apply Hloss. lra.
Qed.

Lemma leveling_direction_witness :
  INR 1 <= 9007199254740992 ∧
  applyPoints 1 (INR 1) 80 250 = Some (2, 230) ∧
  (0 <= 80 → 0 <= 250 → INR 1 <= 2 ∧ 0 <= 230) ∧
  (80 < calculateRequiredExp (INR 1) → 250 <= 0 → 2 <= INR 1).
Proof.
  assert (INR 1 <= 9007199254740992) as Hk by (simpl; lra).
  assert (applyPoints 1 (INR 1) 80 250 = Some (2, 230)) as Hrun.
  { simpl. apply applyPoints_1_80_250. }
  split; [exact Hk |]. split; [exact Hrun |].
  exact (leveling_direction 1 0 80 250 2 230 Hk Hrun).
Defined.

End LevelingMore.

(** ** Pet controller: the store *)



(** X8.  An update without points whose entries set String and Number paths of
    the Pet schema to strings and numbers that are truthy is idempotent:
    sent a second time it answers with the same pet and leaves the store as
    the first left it. *)
Theorem updatePet_without_points_idempotent (fuel : nat) (d : db)
    (petId : string) (pet updates : object) :
  petId ≠ EmptyString →
  pets d !! petId = Some pet →
  updates !! "points" = None →
  (∀ key v, updates !! key = Some v →
     settable Pet_schema key v = true ∧ truthy (Some v) = true) →
  ∃ updatedPet d',
    updatePet fuel d petId updates = Finished (Json 200 updatedPet, d') ∧
    updatePet fuel d' petId updates = Finished (Json 200 updatedPet, d').
Proof.
  intros Hid Hpet Hnone Hset.
  assert (∀ key v, updates !! key = Some v → key ≠ "points" →
            settable Pet_schema key v = true) as Hset'.
  { intros key v Hkv _. by apply Hset. }
  destruct (updatePet_settable fuel d petId pet pet updates)
    as (updatedPet & Hrun & Hkeys);
    [done | done | by apply levelPet_no_points | done |].
  set (d' := set_pets d (<[petId := updatedPet]> (pets d))) in *.
  assert (pets d' !! petId = Some updatedPet) as Hpet' by apply lookup_insert_eq.
  destruct (updatePet_settable fuel d' petId updatedPet updatedPet updates)
    as (updatedPet' & Hrun' & Hkeys');
    [done | done | by apply levelPet_no_points | done |].
  assert (updatedPet' = updatedPet) as ->.
  { apply map_eq. intros key. rewrite Hkeys'.
    destruct (updates !! key) as [v |] eqn:Hkv; [| done].
    destruct (decide (key = "points")) as [-> | Hkp]; [congruence |].
    rewrite Hkeys, Hkv. by rewrite decide_False. }
  exists updatedPet, d'. split; [done |]. rewrite Hrun'.
  unfold d', set_pets. simpl. by rewrite insert_insert_eq.
Qed.

Lemma updatePet_without_points_idempotent_witness :
  let updates : object := {[ "name" := VStr "Momo"; "level" := VNum 3 ]} in
  "p1" ≠ EmptyString ∧
  pets sample_db !! "p1" = Some sample_pet ∧
  updates !! "points" = None ∧
  (∀ key v, updates !! key = Some v →
     settable Pet_schema key v = true ∧ truthy (Some v) = true) ∧
  ∃ updatedPet d',
    updatePet 0 sample_db "p1" updates = Finished (Json 200 updatedPet, d') ∧
    updatePet 0 d' "p1" updates = Finished (Json 200 updatedPet, d').
Proof.
  intros updates.
  assert ("p1" ≠ EmptyString) as H1 by done.
  assert (pets sample_db !! "p1" = Some sample_pet) as H2 by reflexivity.
  assert (updates !! "points" = None) as H3 by reflexivity.
  assert (∀ key v, updates !! key = Some v →
            settable Pet_schema key v = true ∧ truthy (Some v) = true) as H4.
  { intros key v Hkv. subst updates.
    apply lookup_insert_Some in Hkv as [[<- <-] | [_ Hkv]]; [done |].
    apply lookup_singleton_Some in Hkv as [<- <-].
    split; [reflexivity |]. unfold truthy. rewrite decide_False; [done | lra]. }
  repeat (split; [assumption |]).
  exact (updatePet_without_points_idempotent 0 sample_db "p1" _ updates
           H1 H2 H3 H4).
Defined.

(** X9.  What [updatePet] answers with 200 is what [getPet] answers with
    afterwards. *)
Theorem getPet_after_updatePet (fuel : nat) (d d' : db) (petId : string)
    (updates updatedPet : object) :
  updatePet fuel d petId updates = Finished (Json 200 updatedPet, d') →
  getPet d' petId = Json 200 updatedPet.
Proof.
  intros Hrun. pose proof Hrun as Hrun'.
  apply updatePet_200 in Hrun' as (pet & pet1 & doc & Hpet & _ & _ & _ & ->).
  unfold updatePet in Hrun. unfold getPet.
  destruct (missing petId); [done |].
  simpl. by rewrite lookup_insert_eq.
Qed.

Lemma getPet_after_updatePet_witness :
  let updates : object := {[ "name" := VStr "Momo" ]} in
  ∃ updatedPet d',
    updatePet 0 sample_db "p1" updates = Finished (Json 200 updatedPet, d') ∧
    getPet d' "p1" = Json 200 updatedPet.
Proof.
  intros updates.
  assert (updatePet 0 sample_db "p1" updates =
            Finished (Json 200 (<["name" := VStr "Momo"]> sample_pet),
                      set_pets sample_db
                        (<["p1" := <["name" := VStr "Momo"]> sample_pet]>
                           (pets sample_db)))) as Hrun by reflexivity.
  eexists _, _. split; [exact Hrun |].
  exact (getPet_after_updatePet 0 sample_db _ "p1" updates _ Hrun).
Defined.



(** ** Task controller: creating and updating *)

(** X11.  [createTask] never stores a task.  The document it builds has no [user],
    which the schema requires, so [save] rejects it: every call answers 400,
    404 or 500 and leaves the store as it was. *)
Theorem createTask_never_saves (d : db) (noteId : string) (name : option value)
    (newId : string) (now : R) :
  (createTask d noteId name newId now).2 = d ∧
  ((createTask d noteId name newId now).1 = Message 400 "Required fields missing" ∨
   (createTask d noteId name newId now).1 = Message 404 "Note not found" ∨
   (createTask d noteId name newId now).1 = Failure 500).
Proof.
  unfold createTask. destruct name as [nm |]; [| by split; [| left]].
  destruct (negb _); [by split; [| left] |].
  destruct (notes d !! noteId); [| by split; [| right; left]].
  unfold Task_save. simpl.
  rewrite bool_decide_eq_false_2; [by split; [| right; right] |].
  intros [v Hv]. by vm_compute in Hv.
Qed.

(** X12.  Numeric points in the payload are stored as they are when the category
    does not change (the payload's category is absent, falsy or the stored
    one) and every entry of the payload sets a String or Number path of the
    schema to a string or a number. *)
Theorem updateTask_points_override (d : db) (taskId : string)
    (oldTask taskData : object) (x : R) :
  taskId ≠ EmptyString →
  tasks d !! taskId = Some oldTask →
  taskData !! "points" = Some (VNum x) →
  (∀ key v, taskData !! key = Some v → settable Task_schema key v = true) →
  truthy (taskData !! "category") = false ∨
  taskData !! "category" = oldTask !! "category" →
  ∃ task,
    updateTask d taskId taskData =
      Finished (Json 200 task, set_tasks d (<[taskId := task]> (tasks d))) ∧
    task !! "points" = Some (VNum x).
Proof.
  intros Hid Hold Hv Hset Hsame. eexists. split.
  - apply updateTask_plain; [done | done | by apply category_unchanged |].
    intros key v Hkv. by apply settable_has_kind, Hset.
  - apply lookup_union_Some_raw. by left.
Qed.

Lemma updateTask_points_override_witness :
  let taskData : object := {[ "points" := VNum 7; "category" := VStr "easy" ]} in
  "t1" ≠ EmptyString ∧
  tasks sample_db !! "t1" = Some (sample_task "n1" "water the plants") ∧
  taskData !! "points" = Some (VNum 7) ∧
  (∀ key v, taskData !! key = Some v → settable Task_schema key v = true) ∧
  (truthy (taskData !! "category") = false ∨
   taskData !! "category" = sample_task "n1" "water the plants" !! "category") ∧
  ∃ task,
    updateTask sample_db "t1" taskData =
      Finished (Json 200 task,
                set_tasks sample_db (<["t1" := task]> (tasks sample_db))) ∧
    task !! "points" = Some (VNum 7).
Proof.
  intros taskData.
  assert ("t1" ≠ EmptyString) as H1 by done.
  assert (tasks sample_db !! "t1" = Some (sample_task "n1" "water the plants"))
    as H2 by reflexivity.
  assert (taskData !! "points" = Some (VNum 7)) as H3 by reflexivity.
  assert (∀ key v, taskData !! key = Some v → settable Task_schema key v = true)
    as H4.
  { intros key v Hkv. subst taskData.
    apply lookup_insert_Some in Hkv as [[<- <-] | [_ Hkv]]; [reflexivity |].
    apply lookup_singleton_Some in Hkv as [<- <-]. reflexivity. }
  assert (truthy (taskData !! "category") = false ∨
          taskData !! "category" = sample_task "n1" "water the plants" !! "category")
    as H5 by (right; reflexivity).
  repeat (split; [assumption |]).
  exact (updateTask_points_override sample_db "t1" _ taskData 7 H1 H2 H3 H4 H5).
Defined.

(** X13.  The same payload sent twice is not the same as sent once: with a new
    category of the table and numeric points of its own (and every entry
    setting a String or Number path to a string or a number), the first
    update stores the table's points and the second stores the payload's. *)
Theorem updateTask_twice (d : db) (taskId : string) (oldTask taskData : object)
    (c : string) (pts : value) (x : R) :
  taskId ≠ EmptyString →
  tasks d !! taskId = Some oldTask →
  (c, pts) ∈ [("easy", VNum 250); ("medium", VNum 500); ("hard", VNum 1000)] →
  taskData !! "category" = Some (VStr c) →
  oldTask !! "category" ≠ Some (VStr c) →
  taskData !! "points" = Some (VNum x) →
  (∀ key v, taskData !! key = Some v → settable Task_schema key v = true) →
  ∃ task1 d1 task2 d2,
    updateTask d taskId taskData = Finished (Json 200 task1, d1) ∧
    task1 !! "points" = Some pts ∧
    updateTask d1 taskId taskData = Finished (Json 200 task2, d2) ∧
    task2 !! "points" = Some (VNum x) ∧
    task2 !! "category" = Some (VStr c).
Proof.
  intros Hid Hold Hc Hcat Hne Hv Hset.
  assert (∀ key v, taskData !! key = Some v →
            ∃ k, path_kind Task_schema key = Some k ∧ has_kind v k = true)
    as Hkept.
  { intros key v Hkv. by apply settable_has_kind, Hset. }
  pose proof (updateTask_rederived d taskId oldTask taskData c pts
                Hid Hold Hc Hcat Hne) as Hfirst.
  set (task1 := <["points" := pts]> taskData ∪ oldTask) in Hfirst.
  set (d1 := set_tasks d (<[taskId := task1]> (tasks d))) in Hfirst.
  assert (task1 !! "category" = Some (VStr c)) as Hcat1.
  { apply lookup_union_Some_raw. left. by rewrite lookup_insert_ne. }
  assert (tasks d1 !! taskId = Some task1) as Hold1 by apply lookup_insert_eq.
  pose proof (updateTask_plain d1 taskId task1 taskData Hid Hold1) as Hsecond.
  exists task1, d1. eexists _, _. split.
  { apply Hfirst. intros key v Hkv _. by apply Hkept. }
  split.
  { apply lookup_union_Some_raw. left. apply lookup_insert_eq. }
  split.
  { apply Hsecond; [| done]. apply category_unchanged. right. by rewrite Hcat1. }
  split; apply lookup_union_Some_raw; by left.
Qed.

Lemma updateTask_twice_witness :
  let taskData : object := {[ "category" := VStr "hard"; "points" := VNum 7 ]} in
  "t1" ≠ EmptyString ∧
  tasks sample_db !! "t1" = Some (sample_task "n1" "water the plants") ∧
  ("hard", VNum 1000) ∈
    [("easy", VNum 250); ("medium", VNum 500); ("hard", VNum 1000)] ∧
  taskData !! "category" = Some (VStr "hard") ∧
  sample_task "n1" "water the plants" !! "category" ≠ Some (VStr "hard") ∧
  taskData !! "points" = Some (VNum 7) ∧
  (∀ key v, taskData !! key = Some v → settable Task_schema key v = true) ∧
  ∃ task1 d1 task2 d2,
    updateTask sample_db "t1" taskData = Finished (Json 200 task1, d1) ∧
    task1 !! "points" = Some (VNum 1000) ∧
    updateTask d1 "t1" taskData = Finished (Json 200 task2, d2) ∧
    task2 !! "points" = Some (VNum 7) ∧
    task2 !! "category" = Some (VStr "hard").
Proof.
  intros taskData.
  assert ("t1" ≠ EmptyString) as H1 by done.
  assert (tasks sample_db !! "t1" = Some (sample_task "n1" "water the plants"))
    as H2 by reflexivity.
  assert (("hard", VNum 1000) ∈
            [("easy", VNum 250); ("medium", VNum 500); ("hard", VNum 1000)])
    as H3 by (do 2 apply list_elem_of_further; apply list_elem_of_here).
  assert (taskData !! "category" = Some (VStr "hard")) as H4 by reflexivity.
  assert (sample_task "n1" "water the plants" !! "category" ≠ Some (VStr "hard"))
    as H5 by (intros Heq; vm_compute in Heq; discriminate Heq).
  assert (taskData !! "points" = Some (VNum 7)) as H6 by reflexivity.
  assert (∀ key v, taskData !! key = Some v → settable Task_schema key v = true)
    as H7.
  { intros key v Hkv. subst taskData.
    apply lookup_insert_Some in Hkv as [[<- <-] | [_ Hkv]]; [reflexivity |].
    apply lookup_singleton_Some in Hkv as [<- <-]. reflexivity. }
  repeat (split; [assumption |]).
  exact (updateTask_twice sample_db "t1" _ taskData "hard" (VNum 1000) 7
           H1 H2 H3 H4 H5 H6 H7).
Defined.





(** X28.  Points that cannot be cast to a number are answered with 500 and
    nothing is stored: the payload holds under "points" a word of the
    letters a to z, its category does not change, and its other entries
    set String and Number paths to strings and numbers. *)
Theorem updateTask_uncastable_points (d : db) (taskId : string)
    (oldTask taskData : object) (word : string) :
  taskId ≠ EmptyString →
  tasks d !! taskId = Some oldTask →
  taskData !! "points" = Some (VStr word) → lowercase_word word = true →
  truthy (taskData !! "category") = false ∨
  taskData !! "category" = oldTask !! "category" →
  (∀ key v, taskData !! key = Some v → key ≠ "points" →
     settable Task_schema key v = true) →
  updateTask d taskId taskData = Finished (Failure 500, d).
Proof.
  intros Hid Hold Hpoints Hword Hsame Hset. unfold updateTask, missing.
  rewrite decide_False by done. rewrite Hold.
  rewrite category_unchanged by done. unfold Task_findByIdAndUpdate.
  assert (entry_unmodelled Task_schema "points" (VStr word) = false
          ∧ entry_throws Task_schema "points" (VStr word) = true) as [Hun Hthrows].
  { unfold entry_unmodelled, entry_throws, cast. simpl. by rewrite Hword. }
  assert (map_any (entry_unmodelled Task_schema) taskData = false) as ->.
  { apply map_any_false. intros key v Hkv.
    destruct (decide (key = "points")) as [-> | Hkp]; [by simplify_eq |].
    destruct (settable_has_kind _ _ _ (Hset key v Hkv Hkp)) as (k & Hk & Hkind).
    by apply (kept_entry _ _ _ k). }
  assert (map_any (entry_throws Task_schema) taskData = true) as ->.
  { apply map_any_true. by exists "points", (VStr word). }
  done.
Qed.

Lemma updateTask_uncastable_points_witness :
  "t1" ≠ EmptyString ∧
  tasks sample_db !! "t1" = Some (sample_task "n1" "water the plants") ∧
  ({[ "points" := VStr "abc" ]} : object) !! "points" = Some (VStr "abc") ∧
  lowercase_word "abc" = true ∧
  (truthy (({[ "points" := VStr "abc" ]} : object) !! "category") = false ∨
   ({[ "points" := VStr "abc" ]} : object) !! "category" =
     sample_task "n1" "water the plants" !! "category") ∧
  (∀ key v, ({[ "points" := VStr "abc" ]} : object) !! key = Some v →
     key ≠ "points" → settable Task_schema key v = true) ∧
  updateTask sample_db "t1" {[ "points" := VStr "abc" ]} =
    Finished (Failure 500, sample_db).
Proof.
  set (taskData := {[ "points" := VStr "abc" ]} : object).
  assert ("t1" ≠ EmptyString) as H1 by done.
  assert (tasks sample_db !! "t1" = Some (sample_task "n1" "water the plants"))
    as H2 by reflexivity.
  assert (taskData !! "points" = Some (VStr "abc")) as H3 by reflexivity.
  assert (lowercase_word "abc" = true) as H4 by reflexivity.
  assert (truthy (taskData !! "category") = false ∨
          taskData !! "category" = sample_task "n1" "water the plants" !! "category")
    as H5 by (left; reflexivity).
  assert (∀ key v, taskData !! key = Some v → key ≠ "points" →
            settable Task_schema key v = true) as H6.
  { intros key v Hkv Hkp. subst taskData.
    apply lookup_singleton_Some in Hkv as [<- _]. done. }
  repeat (split; [assumption |]).
  exact (updateTask_uncastable_points sample_db "t1" _ taskData "abc"
           H1 H2 H3 H4 H5 H6).
Defined.



(** ** Task controller: deleting *)

(** X15.  A task whose note does not resolve cannot be deleted: the hook fails,
    the handler answers 500, and the store, the task included, is as it
    was. *)
Theorem deleteTask_orphan (d : db) (taskId : string) (task : object) (n : string) :
  taskId ≠ EmptyString →
  tasks d !! taskId = Some task →
  task_note task = Some n →
  notes d !! n = None →
  deleteTask d taskId = (Failure 500, d).
Proof.
  intros Hid Htask Hn Hnone. unfold deleteTask, missing.
  rewrite decide_False by done. rewrite Htask.
  unfold Task_deleteOne, Task_pre_deleteOne. rewrite Hn. simpl.
  by rewrite Hnone.
Qed.

Lemma deleteTask_orphan_witness :
  let d := set_notes sample_db ∅ in
  "t1" ≠ EmptyString ∧
  tasks d !! "t1" = Some (sample_task "n1" "water the plants") ∧
  task_note (sample_task "n1" "water the plants") = Some "n1" ∧
  notes d !! "n1" = None ∧
  deleteTask d "t1" = (Failure 500, d).
Proof.
  intros d.
  assert ("t1" ≠ EmptyString) as H1 by done.
  assert (tasks d !! "t1" = Some (sample_task "n1" "water the plants"))
    as H2 by reflexivity.
  assert (task_note (sample_task "n1" "water the plants") = Some "n1")
    as H3 by reflexivity.
  assert (notes d !! "n1" = None) as H4 by reflexivity.
  repeat (split; [assumption |]).
  exact (deleteTask_orphan d "t1" _ "n1" H1 H2 H3 H4).
Defined.

(** X16.  Unless [deleteTask] answers 200 the store is as it was. *)
Theorem deleteTask_failure_leaves_store (d : db) (taskId : string) :
  (deleteTask d taskId).1 ≠ Empty 200 → (deleteTask d taskId).2 = d.
Proof.
  unfold deleteTask. destruct (missing taskId); [done |].
  destruct (tasks d !! taskId) as [task |]; [| done].
  unfold Task_deleteOne. destruct (Task_pre_deleteOne d taskId task); done.
Qed.

Lemma deleteTask_failure_leaves_store_witness :
  (deleteTask sample_db "t9").1 ≠ Empty 200 ∧
  (deleteTask sample_db "t9").2 = sample_db.
Proof.
  assert ((deleteTask sample_db "t9").1 ≠ Empty 200) as H
    by (intros Heq; vm_compute in Heq; discriminate Heq).
  split; [exact H |].
  exact (deleteTask_failure_leaves_store sample_db "t9" H).
Defined.

(** X17.  A task is deleted once: after a delete that answered 200, the same
    delete answers 404 and changes nothing. *)
Theorem deleteTask_twice (d : db) (taskId : string) (task : object)
    (n : string) (nt : note) :
  taskId ≠ EmptyString →
  tasks d !! taskId = Some task →
  task_note task = Some n →
  notes d !! n = Some nt →
  ∃ d',
    deleteTask d taskId = (Empty 200, d') ∧
    deleteTask d' taskId = (Message 404 "Task not found", d').
Proof.
  intros Hid Htask Hn Hnt. unfold deleteTask, missing.
  rewrite decide_False by done. rewrite Htask.
  rewrite (Task_deleteOne_Deleted d taskId task n nt) by done.
  eexists. split; [done |]. simpl. by rewrite lookup_delete_eq.
Qed.

Lemma deleteTask_twice_witness :
  "t1" ≠ EmptyString ∧
  tasks sample_db !! "t1" = Some (sample_task "n1" "water the plants") ∧
  task_note (sample_task "n1" "water the plants") = Some "n1" ∧
  notes sample_db !! "n1" = Some {| note_folder := "f1"; note_tasks := ["t1"; "t2"] |} ∧
  ∃ d',
    deleteTask sample_db "t1" = (Empty 200, d') ∧
    deleteTask d' "t1" = (Message 404 "Task not found", d').
Proof.
  assert ("t1" ≠ EmptyString) as H1 by done.
  assert (tasks sample_db !! "t1" = Some (sample_task "n1" "water the plants"))
    as H2 by reflexivity.
  assert (task_note (sample_task "n1" "water the plants") = Some "n1")
    as H3 by reflexivity.
  assert (notes sample_db !! "n1" =
            Some {| note_folder := "f1"; note_tasks := ["t1"; "t2"] |})
    as H4 by reflexivity.
  repeat (split; [assumption |]).
  exact (deleteTask_twice sample_db "t1" _ "n1" _ H1 H2 H3 H4).
Defined.

(** X18.  [deleteTask] keeps the task lists consistent: when every listed task
    resolves to a task of the listing note, the same holds after the call,
    whatever it answers. *)
Theorem deleteTask_keeps_consistency (d : db) (taskId : string) :
  tasks_consistent d → tasks_consistent (deleteTask d taskId).2.
Proof.
  intros Hcons. unfold deleteTask. destruct (missing taskId); [done |].
  destruct (tasks d !! taskId) as [task |] eqn:Htask; [| done].
  unfold Task_deleteOne, Task_pre_deleteOne.
  destruct (task_note task) as [n |] eqn:Hn; [| done]. simpl.
  destruct (notes d !! n) as [nt |] eqn:Hnt; [| done]. simpl.
  intros m mt t Hmt Hin. simpl in *.
  assert (t ≠ taskId ∧ ∃ mt0, notes d !! m = Some mt0 ∧ t ∈ note_tasks mt0)
    as (Hne & mt0 & Hmt0 & Hin0).
  { destruct (decide (m = n)) as [-> | Hm].
    - rewrite lookup_insert_eq in Hmt. simplify_eq. simpl in Hin.
      apply elem_of_pull in Hin as [Hne Hin]. eauto.
    - rewrite lookup_insert_ne in Hmt by done. split; [| eauto].
      intros ->. destruct (Hcons m mt taskId Hmt Hin) as (task' & Htask' & Hn').
      congruence. }
  destruct (Hcons m mt0 t Hmt0 Hin0) as (task' & Htask' & Hn').
  exists task'. by rewrite lookup_delete_ne.
Qed.

Lemma sample_db_consistent : tasks_consistent sample_db.
Proof.
  intros n nt t Hnt Hin. simpl in Hnt.
  apply lookup_singleton_Some in Hnt as [<- <-]. simpl in Hin.
  apply elem_of_cons in Hin as [-> | Hin].
  { by eexists. }
  apply list_elem_of_singleton in Hin as ->. by eexists.
Qed.

Lemma deleteTask_keeps_consistency_witness :
  tasks_consistent sample_db ∧ tasks_consistent (deleteTask sample_db "t1").2.
Proof.
  split; [exact sample_db_consistent |].
  exact (deleteTask_keeps_consistency sample_db "t1" sample_db_consistent).
Defined.

(** X19.  [updateTask] can break that consistency, and [deleteTask] then leaves a
    dangling id: after an update with the payload [{ note: B }] on a task of
    note [A], the delete answers 200 and removes the record, while [A] still
    lists the task. *)
Theorem moved_task_leaves_dangling_id (d : db) (taskId : string) (task : object)
    (A B : string) (ntA ntB : note) :
  taskId ≠ EmptyString →
  tasks d !! taskId = Some task →
  notes d !! A = Some ntA → taskId ∈ note_tasks ntA →
  notes d !! B = Some ntB → A ≠ B →
  ∃ task1 d1 d2,
    updateTask d taskId {[ "note" := VStr B ]} = Finished (Json 200 task1, d1) ∧
    deleteTask d1 taskId = (Empty 200, d2) ∧
    tasks d2 !! taskId = None ∧
    notes d2 !! A = Some ntA.
Proof.
  intros Hid Htask HA Hin HB Hne.
  rewrite (updateTask_plain d taskId task); [| done | done | done |].
  - eexists _, _.
    assert (task_note ({[ "note" := VStr B ]} ∪ task) = Some B) as Hnote.
    { unfold task_note.
      rewrite (lookup_union_Some_l _ _ "note" (VStr B)); [done |].
      apply lookup_singleton_eq. }
    eexists. split; [done |]. unfold deleteTask, missing.
    rewrite decide_False by done. simpl. rewrite lookup_insert_eq.
    rewrite (Task_deleteOne_Deleted _ taskId _ B ntB) by done.
    split; [done |]. simpl. split; [apply lookup_delete_eq |].
    by rewrite lookup_insert_ne.
  - intros key v Hkv. apply lookup_singleton_Some in Hkv as [<- <-].
    by exists KId.
Qed.

Lemma moved_task_leaves_dangling_id_witness :
  let d := set_notes sample_db
             (<["n2" := {| note_folder := "f1"; note_tasks := [] |}]>
                (notes sample_db)) in
  "t1" ≠ EmptyString ∧
  tasks d !! "t1" = Some (sample_task "n1" "water the plants") ∧
  notes d !! "n1" = Some {| note_folder := "f1"; note_tasks := ["t1"; "t2"] |} ∧
  "t1" ∈ ["t1"; "t2"] ∧
  notes d !! "n2" = Some {| note_folder := "f1"; note_tasks := [] |} ∧
  "n1" ≠ "n2" ∧
  ∃ task1 d1 d2,
    updateTask d "t1" {[ "note" := VStr "n2" ]} = Finished (Json 200 task1, d1) ∧
    deleteTask d1 "t1" = (Empty 200, d2) ∧
    tasks d2 !! "t1" = None ∧
    notes d2 !! "n1" = Some {| note_folder := "f1"; note_tasks := ["t1"; "t2"] |}.
Proof.
  intros d.
  assert ("t1" ≠ EmptyString) as H1 by done.
  assert (tasks d !! "t1" = Some (sample_task "n1" "water the plants"))
    as H2 by reflexivity.
  assert (notes d !! "n1" =
            Some {| note_folder := "f1"; note_tasks := ["t1"; "t2"] |})
    as H3 by reflexivity.
  assert ("t1" ∈ ["t1"; "t2"]) as H4 by apply list_elem_of_here.
  assert (notes d !! "n2" = Some {| note_folder := "f1"; note_tasks := [] |})
    as H5 by reflexivity.
  assert ("n1" ≠ "n2") as H6 by done.
  repeat (split; [assumption |]).
  exact (moved_task_leaves_dangling_id d "t1" _ "n1" "n2" _ _ H1 H2 H3 H4 H5 H6).
Defined.

(** ** Reading the lists back *)

Lemma populate_cons {A : Type} (coll : gmap string A) (id : string)
    (ids : list string) :
  populate coll (id :: ids) =
    match coll !! id with
    | Some doc => (id, doc) :: populate coll ids
    | None => populate coll ids
    end.
Proof. unfold populate. simpl. by destruct (coll !! id). Qed.

Lemma populate_app {A : Type} (coll : gmap string A) (ids1 ids2 : list string) :
  populate coll (ids1 ++ ids2) = populate coll ids1 ++ populate coll ids2.
Proof.
  induction ids1 as [| id ids1 IH]; [done |].
  rewrite <- app_comm_cons, !populate_cons, IH. by destruct (coll !! id).
Qed.

(** A document stored under an id that the list does not hold does not show
    in the populated list. *)
Lemma populate_insert_fresh {A : Type} (coll : gmap string A) (id : string)
    (x : A) (ids : list string) :
  id ∉ ids → populate (<[id := x]> coll) ids = populate coll ids.
Proof.
  induction ids as [| i ids IH]; [done |].
  intros Hnot. apply not_elem_of_cons in Hnot as [Hne Hnot].
  rewrite !populate_cons, lookup_insert_ne by done. by rewrite IH.
Qed.

(** Pulling an id from the list and deleting its document takes exactly the
    entries of that id out of the populated list. *)
Lemma populate_pull_delete {A : Type} (coll : gmap string A) (id : string)
    (ids : list string) :
  populate (delete id coll) (pull ids id) =
    filter (λ entry, entry.1 ≠ id) (populate coll ids).
Proof.
  unfold pull. induction ids as [| i ids IH]; [done |].
  rewrite populate_cons. destruct (decide (i = id)) as [-> | Hne].
  - rewrite filter_cons_False by (intros H; by apply H).
    destruct (coll !! id); [| done].
    by rewrite filter_cons_False by (intros H; by apply H).
  - rewrite filter_cons_True by done.
    rewrite populate_cons, lookup_delete_ne by done.
    destruct (coll !! i); [| done].
    rewrite filter_cons_True by done. by rewrite IH.
Qed.

(** X20.  After a delete that answered 200, [getTasks] on the owning note answers
    with the list it answered with before, without the entries of the
    deleted task. *)
Theorem getTasks_after_deleteTask (d : db) (taskId : string) (task : object)
    (n : string) (nt : note) :
  taskId ≠ EmptyString → n ≠ EmptyString →
  tasks d !! taskId = Some task →
  task_note task = Some n →
  notes d !! n = Some nt →
  ∃ d' before,
    deleteTask d taskId = (Empty 200, d') ∧
    getTasks d n = Json 200 before ∧
    getTasks d' n = Json 200 (filter (λ entry, entry.1 ≠ taskId) before).
Proof.
  intros Hid Hn0 Htask Hn Hnt. unfold deleteTask, getTasks, missing.
  rewrite !decide_False by done. rewrite Htask, Hnt.
  rewrite (Task_deleteOne_Deleted d taskId task n nt) by done.
  eexists _, _. split; [done |]. split; [done |]. simpl.
  rewrite lookup_insert_eq. simpl. by rewrite populate_pull_delete.
Qed.

Lemma getTasks_after_deleteTask_witness :
  "t1" ≠ EmptyString ∧ "n1" ≠ EmptyString ∧
  tasks sample_db !! "t1" = Some (sample_task "n1" "water the plants") ∧
  task_note (sample_task "n1" "water the plants") = Some "n1" ∧
  notes sample_db !! "n1" = Some {| note_folder := "f1"; note_tasks := ["t1"; "t2"] |} ∧
  ∃ d' before,
    deleteTask sample_db "t1" = (Empty 200, d') ∧
    getTasks sample_db "n1" = Json 200 before ∧
    getTasks d' "n1" = Json 200 (filter (λ entry, entry.1 ≠ "t1") before).
Proof.
  assert ("t1" ≠ EmptyString) as H1 by done.
  assert ("n1" ≠ EmptyString) as H2 by done.
  assert (tasks sample_db !! "t1" = Some (sample_task "n1" "water the plants"))
    as H3 by reflexivity.
  assert (task_note (sample_task "n1" "water the plants") = Some "n1")
    as H4 by reflexivity.
  assert (notes sample_db !! "n1" =
            Some {| note_folder := "f1"; note_tasks := ["t1"; "t2"] |})
    as H5 by reflexivity.
  repeat (split; [assumption |]).
  exact (getTasks_after_deleteTask sample_db "t1" _ "n1" _ H1 H2 H3 H4 H5).
Defined.

(** ** Folder controller *)

(** X21.  [createFolder] answers 201 exactly when the name is truthy, the user id
    is not empty and the user resolves; in every other case the store is as
    it was. *)
Theorem createFolder_answers (d : db) (userId : string) (name : option value)
    (newId : string) :
  ((∃ f, (createFolder d userId name newId).1 = Json 201 f) ↔
   truthy name = true ∧ userId ≠ EmptyString ∧ is_Some (users d !! userId)) ∧
  ((∀ f, (createFolder d userId name newId).1 ≠ Json 201 f) →
   (createFolder d userId name newId).2 = d).
Proof.
  unfold createFolder, missing. destruct name as [nm |].
  2: { split; [| done]. split; [by intros [f Hf] | by intros [Hn _]]. }
  destruct (truthy (Some nm)) eqn:Hn; simpl.
  2: { split; [| done]. split; [by intros [f Hf] | by intros [? _]]. }
  destruct (decide (userId = EmptyString)) as [-> | Hid]; simpl.
  { split; [| done]. split; [by intros [f Hf] | by intros (_ & ? & _)]. }
  destruct (users d !! userId) as [u |]; simpl.
  - split.
    + split; [intros _ | intros _; by eexists]. repeat split; [done |]. by eexists.
    + intros Hno. by destruct (Hno {| folder_user := userId; folder_name := nm;
                                      folder_notes := [] |}).
  - split; [| done]. split; [by intros [f Hf] |].
    intros (_ & _ & [u Hu]). done.
Qed.

(** X22.  A folder that was created shows at the end of what [getFolders] answers
    with, empty and owned by the user; the entries before it are those that
    [getFolders] answered with before.  The new id is one that no folder has
    and no list holds. *)
Theorem getFolders_after_createFolder (d : db) (userId newId : string)
    (name : value) (u : user) :
  userId ≠ EmptyString →
  truthy (Some name) = true →
  users d !! userId = Some u →
  folders d !! newId = None →
  newId ∉ user_folders u →
  ∃ f d' before,
    createFolder d userId (Some name) newId = (Json 201 f, d') ∧
    folder_user f = userId ∧ folder_notes f = [] ∧
    getFolders d userId = Json 200 before ∧
    getFolders d' userId = Json 200 (before ++ [(newId, f)]).
Proof.
  intros Hid Hname Hu Hfresh Hnot. unfold createFolder, getFolders, missing.
  rewrite Hname. rewrite !decide_False by done. simpl. rewrite Hu.
  eexists _, _, _. split; [done |]. split; [done |]. split; [done |].
  split; [done |]. simpl. rewrite lookup_insert_eq. simpl.
  unfold attachChild. rewrite populate_app, populate_insert_fresh by done.
  by rewrite populate_cons, lookup_insert_eq.
Qed.

Lemma getFolders_after_createFolder_witness :
  "u1" ≠ EmptyString ∧
  truthy (Some (VStr "errands")) = true ∧
  users sample_db !! "u1" =
    Some {| user_email := "sam@example.org"; user_password := "$2b$10$hash";
            user_folders := ["f1"]; user_pets := ["p1"] |} ∧
  folders sample_db !! "f2" = None ∧
  ("f2" ∉ ["f1"]) ∧
  ∃ f d' before,
    createFolder sample_db "u1" (Some (VStr "errands")) "f2" = (Json 201 f, d') ∧
    folder_user f = "u1" ∧ folder_notes f = [] ∧
    getFolders sample_db "u1" = Json 200 before ∧
    getFolders d' "u1" = Json 200 (before ++ [("f2", f)]).
Proof.
  assert ("u1" ≠ EmptyString) as H1 by done.
  assert (truthy (Some (VStr "errands")) = true) as H2 by reflexivity.
  assert (users sample_db !! "u1" =
            Some {| user_email := "sam@example.org"; user_password := "$2b$10$hash";
                    user_folders := ["f1"]; user_pets := ["p1"] |})
    as H3 by reflexivity.
  assert (folders sample_db !! "f2" = None) as H4 by reflexivity.
  assert ("f2" ∉ ["f1"]) as H5.
  { intros Hin. apply list_elem_of_singleton in Hin. discriminate Hin. }
  repeat (split; [assumption |]).
  exact (getFolders_after_createFolder sample_db "u1" "f2" (VStr "errands") _
           H1 H2 H3 H4 H5).
Defined.

(** X23.  [createFolder] keeps the folder lists consistent: when every listed
    folder resolves to a folder of the listing user, and the new id is one
    that no folder has, the same holds after the call, whatever it
    answers. *)
Theorem createFolder_keeps_consistency (d : db) (userId : string)
    (name : option value) (newId : string) :
  folders_consistent d →
  folders d !! newId = None →
  folders_consistent (createFolder d userId name newId).2.
Proof.
  intros Hcons Hfresh. unfold createFolder.
  destruct name as [nm |]; [| done].
  destruct (_ || _); [done |].
  destruct (users d !! userId) as [u |] eqn:Hu; [| done]. simpl.
  intros u0 ur f0 Hur Hin. simpl in *.
  destruct (decide (f0 = newId)) as [-> | Hne].
  - rewrite lookup_insert_eq. eexists. split; [done |]. simpl.
    destruct (decide (u0 = userId)) as [-> | Hu0]; [done |].
    rewrite lookup_insert_ne in Hur by done.
    destruct (Hcons u0 ur newId Hur Hin) as (fr & Hfr & _). congruence.
  - rewrite lookup_insert_ne by done.
    destruct (decide (u0 = userId)) as [-> | Hu0].
    + rewrite lookup_insert_eq in Hur. simplify_eq. simpl in Hin.
      unfold attachChild in Hin. apply elem_of_app in Hin as [Hin | Hin].
      * by apply (Hcons userId u).
      * by apply list_elem_of_singleton in Hin.
    + rewrite lookup_insert_ne in Hur by done. by apply (Hcons u0 ur).
Qed.

Lemma sample_db_folders_consistent : folders_consistent sample_db.
Proof.
  intros u ur f Hur Hin. simpl in Hur.
  apply lookup_singleton_Some in Hur as [<- <-]. simpl in Hin.
  apply list_elem_of_singleton in Hin as ->. by eexists.
Qed.

Lemma createFolder_keeps_consistency_witness :
  folders_consistent sample_db ∧
  folders sample_db !! "f2" = None ∧
  folders_consistent
    (createFolder sample_db "u1" (Some (VStr "errands")) "f2").2.
Proof.
  assert (folders sample_db !! "f2" = None) as H by reflexivity.
  split; [exact sample_db_folders_consistent |]. split; [exact H |].
  exact (createFolder_keeps_consistency sample_db "u1" (Some (VStr "errands"))
           "f2" sample_db_folders_consistent H).
Defined.

(** X24.  [updateFolder] with a string that is not empty renames one folder: it
    answers 200 with the folder under its new name, the folder keeps its
    user and its notes, and the other folders, the users, notes, tasks and
    pets are as before. *)
Theorem updateFolder_renames (d : db) (folderId name : string) (f : folder) :
  folderId ≠ EmptyString → name ≠ EmptyString →
  folders d !! folderId = Some f →
  ∃ f' d',
    updateFolder d folderId (Some (VStr name)) = (Json 200 f', d') ∧
    folder_name f' = VStr name ∧
    folder_user f' = folder_user f ∧ folder_notes f' = folder_notes f ∧
    folders d' !! folderId = Some f' ∧
    (∀ other, other ≠ folderId → folders d' !! other = folders d !! other) ∧
    users d' = users d ∧ notes d' = notes d ∧ tasks d' = tasks d ∧
    pets d' = pets d.
Proof.
  intros Hid Hname Hf. unfold updateFolder, missing, truthy.
  rewrite !decide_False by done. simpl. rewrite Hf.
  eexists _, _. split; [done |]. simpl. repeat split; try done.
  - apply lookup_insert_eq.
  - intros other Hne. by rewrite lookup_insert_ne.
Qed.

Lemma updateFolder_renames_witness :
  "f1" ≠ EmptyString ∧ "home" ≠ EmptyString ∧
  folders sample_db !! "f1" =
    Some {| folder_user := "u1"; folder_name := VStr "chores";
            folder_notes := ["n1"] |} ∧
  ∃ f' d',
    updateFolder sample_db "f1" (Some (VStr "home")) = (Json 200 f', d') ∧
    folder_name f' = VStr "home" ∧
    folder_user f' = "u1" ∧ folder_notes f' = ["n1"] ∧
    folders d' !! "f1" = Some f' ∧
    (∀ other, other ≠ "f1" → folders d' !! other = folders sample_db !! other) ∧
    users d' = users sample_db ∧ notes d' = notes sample_db ∧
    tasks d' = tasks sample_db ∧ pets d' = pets sample_db.
Proof.
  assert ("f1" ≠ EmptyString) as H1 by done.
  assert ("home" ≠ EmptyString) as H2 by done.
  assert (folders sample_db !! "f1" =
            Some {| folder_user := "u1"; folder_name := VStr "chores";
                    folder_notes := ["n1"] |}) as H3 by reflexivity.
  repeat (split; [assumption |]).
  exact (updateFolder_renames sample_db "f1" "home" _ H1 H2 H3).
Defined.

(** X25.  Of two renames in a row the last one wins: the answer and the store are
    those of the second rename alone. *)
Theorem updateFolder_last_wins (d : db) (folderId name1 name2 : string)
    (f : folder) :
  folderId ≠ EmptyString → name1 ≠ EmptyString → name2 ≠ EmptyString →
  folders d !! folderId = Some f →
  ∃ f1 d1,
    updateFolder d folderId (Some (VStr name1)) = (Json 200 f1, d1) ∧
    updateFolder d1 folderId (Some (VStr name2)) =
      updateFolder d folderId (Some (VStr name2)).
Proof.
  intros Hid Hn1 Hn2 Hf. unfold updateFolder, missing, truthy.
  rewrite !decide_False by done. simpl. rewrite Hf.
  eexists _, _. split; [done |]. simpl. rewrite lookup_insert_eq. simpl.
  unfold set_folders. simpl. by rewrite insert_insert_eq.
Qed.

Lemma updateFolder_last_wins_witness :
  "f1" ≠ EmptyString ∧ "home" ≠ EmptyString ∧ "garden" ≠ EmptyString ∧
  folders sample_db !! "f1" =
    Some {| folder_user := "u1"; folder_name := VStr "chores";
            folder_notes := ["n1"] |} ∧
  ∃ f1 d1,
    updateFolder sample_db "f1" (Some (VStr "home")) = (Json 200 f1, d1) ∧
    updateFolder d1 "f1" (Some (VStr "garden")) =
      updateFolder sample_db "f1" (Some (VStr "garden")).
Proof.
  assert ("f1" ≠ EmptyString) as H1 by done.
  assert ("home" ≠ EmptyString) as H2 by done.
  assert ("garden" ≠ EmptyString) as H3 by done.
  assert (folders sample_db !! "f1" =
            Some {| folder_user := "u1"; folder_name := VStr "chores";
                    folder_notes := ["n1"] |}) as H4 by reflexivity.
  repeat (split; [assumption |]).
  exact (updateFolder_last_wins sample_db "f1" "home" "garden" _ H1 H2 H3 H4).
Defined.

(** ** The Folder component *)

Lemma clicks_app (props : FolderProps) (cs1 cs2 : list click) (st : bool) :
  clicks props (cs1 ++ cs2) st =
    ((clicks props cs2 (clicks props cs1 st).1).1,
     (clicks props cs1 st).2 ++ (clicks props cs2 (clicks props cs1 st).1).2).
Proof.
  revert st. induction cs1 as [| c cs1 IH]; intros st; simpl.
  - by destruct (clicks props cs2 st).
  - destruct (onDocumentClick props c st) as [st1 called].
    rewrite IH. by destruct (clicks props cs1 st1).
Qed.

(** X26.  The folder opens on a click that follows a click on it, and on no
    other: whatever came before, of two clicks on the folder in a row the
    second calls [onClick()] exactly when [onClick] was passed and the
    folder is not being edited, and a click on the folder that follows a
    click elsewhere calls nothing; the folder is selected after a click on
    it and not selected after a click elsewhere. *)
Theorem folder_opens_on_second_click (props : FolderProps) (cs : list click)
    (st : bool) :
  (∃ first,
     (clicks props (cs ++ [OnFolder; OnFolder]) st).2 =
       (clicks props cs st).2
         ++ [first; onClick_given props && negb (editing props)]) ∧
  (clicks props (cs ++ [Elsewhere; OnFolder]) st).2 =
    (clicks props cs st).2 ++ [false; false] ∧
  (clicks props (cs ++ [OnFolder]) st).1 = true ∧
  (clicks props (cs ++ [Elsewhere]) st).1 = false.
Proof.
  rewrite !clicks_app. simpl. set (st1 := (clicks props cs st).1).
  repeat split.
  - unfold handleClick. destruct st1; simpl; by eexists.
  - unfold handleClick. by destruct st1.
Qed.

(** X27.  While the folder is being edited, or when no [onClick] was passed, no
    click calls [onClick()]. *)
Theorem folder_never_opens_while_editing (props : FolderProps) (cs : list click)
    (st : bool) :
  editing props = true ∨ onClick_given props = false →
  Forall (λ called, called = false) (clicks props cs st).2.
Proof.
  intros Hoff. revert st. induction cs as [| c cs IH]; intros st; simpl.
  - constructor.
  - destruct (onDocumentClick props c st) as [st1 called] eqn:Hc.
    specialize (IH st1). destruct (clicks props cs st1) as [final calls].
    simpl in *. constructor; [| done].
    destruct c; simpl in Hc; [| by simplify_eq].
    unfold handleClick in Hc. destruct st; simpl in Hc; simplify_eq; [| done].
    destruct Hoff as [-> | ->]; [apply andb_false_r | done].
Qed.

Lemma folder_never_opens_while_editing_witness :
  let props := {| onClick_given := true; editing := true |} in
  (editing props = true ∨ onClick_given props = false) ∧
  Forall (λ called, called = false)
    (clicks props [OnFolder; OnFolder; Elsewhere; OnFolder] false).2.
Proof.
  intros props.
  assert (editing props = true ∨ onClick_given props = false) as H
    by (left; reflexivity).
  split; [exact H |].
  exact (folder_never_opens_while_editing props
           [OnFolder; OnFolder; Elsewhere; OnFolder] false H).
Defined.
